(** * The Monkey virtual machine and its REPL driver

    A shallow embedding of [vm.go] (package [vm]) and [repl.go] (package
    [repl]) of monkey-compiler, and the properties of the operand stack, of
    the operator handlers and of the dispatch loop that the specification
    states.

    Go values of interface type [object.Object] are pointers to structs: the
    model keeps a heap of structs and lets an interface value be [nil] or an
    address, so that [==] on interface values is identity of addresses, as in
    Go.  A run-time panic of Go (index out of range, nil dereference, integer
    division by zero) is an outcome of its own, different from a returned
    [error]. *)

From Stdlib Require Import ZArith Lia Ascii String.
From Stdlib Require Strings.Byte.
From stdpp Require Import base decidable list strings pretty.

Local Open Scope Z_scope.

(** ** Package [object] *)

Module object.

(** Modelled from the spec: package [object] is not among the sources.  The
    value model of the specification has three shapes, [Integer] carrying a
    signed 64-bit integer, [Boolean] carrying a bit and [Null]; the type
    tags are [INTEGER], [BOOLEAN] and [NULL]. *)
Definition ObjectType := string.
Definition INTEGER_OBJ : ObjectType := "INTEGER".
Definition BOOLEAN_OBJ : ObjectType := "BOOLEAN".
Definition NULL_OBJ : ObjectType := "NULL".

(** The struct behind a pointer: [object.Integer{Value}],
    [object.Boolean{Value}] or [object.Null{}]. *)
Inductive Struct : Type :=
| Integer (Value : Z)
| Boolean (Value : bool)
| Null.

(** An interface value of type [object.Object]: [None] is Go's [nil],
    [Some a] the pointer to the struct at address [a] of the heap. *)
Definition Object : Type := option nat.
Definition nil : Object := None.

Definition Type_ (s : Struct) : ObjectType :=
  match s with
  | Integer _ => INTEGER_OBJ
  | Boolean _ => BOOLEAN_OBJ
  | Null => NULL_OBJ
  end.

(** Modelled from the spec: the printable forms are ["42"], ["true"] and
    ["null"]. *)
Definition Inspect (s : Struct) : string :=
  match s with
  | Integer v => pretty v
  | Boolean true => "true"
  | Boolean false => "false"
  | Null => "null"
  end.

(** Go's [int64] arithmetic wraps around in two's complement. *)
Definition int64 (z : Z) : Z := (z + 2 ^ 63) mod 2 ^ 64 - 2 ^ 63.

End object.

(** ** Package [code] *)

Module code.

(** The opcodes [vm.go] dispatches on.  Package [code] is not among the
    sources: the value of each constant is left open, see [decode] in
    package [vm]. *)
Inductive Op : Type :=
| OpConstant | OpPop
| OpAdd | OpSub | OpMul | OpDiv
| OpTrue | OpFalse | OpNull
| OpEqual | OpNotEqual | OpGreaterThan
| OpMinus | OpBang
| OpJump | OpJumpNotTruthy
| OpSetGlobal | OpGetGlobal.

(** [type Opcode byte], [type Instructions []byte]. *)
Definition Opcode : Type := Byte.byte.
Definition Instructions : Type := list Byte.byte.

Definition byteval (b : Byte.byte) : Z := Z.of_N (Byte.to_N b).

(** Modelled from the spec: [ReadUint16] reads an unsigned big-endian
    operand of two bytes at the head of the slice it is given.  [None] is
    the panic of Go on a slice shorter than two bytes. *)
Definition ReadUint16 (ins : Instructions) : option Z :=
  match ins with
  | hi :: lo :: _ => Some (byteval hi * 256 + byteval lo)
  | _ => None
  end.

(** Modelled from the spec: a numbering of the opcodes, in the order of the
    instruction table of the specification.  The machine never depends on
    it; it serves to write concrete instruction streams. *)
Definition byte_of (op : Op) : Opcode :=
  match op with
  | OpConstant => Byte.x00 | OpPop => Byte.x01
  | OpAdd => Byte.x02 | OpSub => Byte.x03 | OpMul => Byte.x04 | OpDiv => Byte.x05
  | OpTrue => Byte.x06 | OpFalse => Byte.x07 | OpNull => Byte.x08
  | OpEqual => Byte.x09 | OpNotEqual => Byte.x0a | OpGreaterThan => Byte.x0b
  | OpMinus => Byte.x0c | OpBang => Byte.x0d
  | OpJump => Byte.x0e | OpJumpNotTruthy => Byte.x0f
  | OpSetGlobal => Byte.x10 | OpGetGlobal => Byte.x11
  end.

Definition op_of (b : Opcode) : option Op :=
  match b with
  | Byte.x00 => Some OpConstant | Byte.x01 => Some OpPop
  | Byte.x02 => Some OpAdd | Byte.x03 => Some OpSub
  | Byte.x04 => Some OpMul | Byte.x05 => Some OpDiv
  | Byte.x06 => Some OpTrue | Byte.x07 => Some OpFalse | Byte.x08 => Some OpNull
  | Byte.x09 => Some OpEqual | Byte.x0a => Some OpNotEqual
  | Byte.x0b => Some OpGreaterThan
  | Byte.x0c => Some OpMinus | Byte.x0d => Some OpBang
  | Byte.x0e => Some OpJump | Byte.x0f => Some OpJumpNotTruthy
  | Byte.x10 => Some OpSetGlobal | Byte.x11 => Some OpGetGlobal
  | _ => None
  end.

(** Modelled from the spec: [Make] for the opcodes of this machine, the
    opcode byte followed by its big-endian operand of two bytes when it has
    one. *)
Definition Make0 (op : Op) : Instructions := [byte_of op].

Definition Make1 (op : Op) (operand : N) : Instructions :=
  match Byte.of_N (operand / 256), Byte.of_N (operand mod 256) with
  | Some hi, Some lo => [byte_of op; hi; lo]
  | _, _ => []
  end.

End code.

(** ** Package [vm] *)

Module vm.
Import object code.

Definition StackSize : Z := 2048.
Definition GlobalsSize : Z := 65536.

(** The package-level singletons.  Go initialises them before anything
    else runs: they are the first three structs of every heap. *)
Definition True : Object := Some 0%nat.
Definition False : Object := Some 1%nat.
Definition Null : Object := Some 2%nat.

Definition initial_heap : list Struct :=
  [object.Boolean true; object.Boolean false; object.Null].

(** The struct [VM], with the heap its pointers point into. *)
Record VM : Type := mkVM {
  heap : list Struct;
  constants : list Object;
  instructions : Instructions;
  globals : list Object;
  stack : list Object;
  sp : Z
}.

Definition set_heap (h : list Struct) (m : VM) : VM :=
  mkVM h (constants m) (instructions m) (globals m) (stack m) (sp m).
Definition set_globals (g : list Object) (m : VM) : VM :=
  mkVM (heap m) (constants m) (instructions m) g (stack m) (sp m).
Definition set_stack (s : list Object) (m : VM) : VM :=
  mkVM (heap m) (constants m) (instructions m) (globals m) s (sp m).
Definition set_sp (n : Z) (m : VM) : VM :=
  mkVM (heap m) (constants m) (instructions m) (globals m) (stack m) n.

(** [l[i]] for a Go [int] index: [None] is the index-out-of-range panic. *)
Definition index {A : Type} (l : list A) (i : Z) : option A :=
  if decide (0 <= i) then l !! Z.to_nat i else None.

(** [l[i:]]: [None] is the slice-bounds-out-of-range panic. *)
Definition slice_from {A : Type} (l : list A) (i : Z) : option (list A) :=
  if decide (0 <= i <= Z.of_nat (length l)) then Some (drop (Z.to_nat i) l)
  else None.

Definition deref (h : list Struct) (o : Object) : option Struct :=
  match o with
  | Some a => h !! a
  | None => None
  end.

(** *** Methods as state transformers

    A method of [*VM] either returns (a value, and for the methods of
    result type [error] the value [tt] stands for the [nil] error), or
    returns a non-nil [error] with its message, or panics.  The machine state
    at the return is kept in both returning cases: the REPL reads the stack
    of a machine whose [Run] has failed. *)
Inductive Res (A : Type) : Type :=
| Ret (a : A) (m : VM)
| Fail (err : string) (m : VM)
| Panic (msg : string).
Arguments Ret {A} a m.
Arguments Fail {A} err m.
Arguments Panic {A} msg.

Definition M (A : Type) : Type := VM -> Res A.

Definition ret {A : Type} (a : A) : M A := fun m => Ret a m.
Definition fail {A : Type} (err : string) : M A := fun m => Fail err m.
Definition panic {A : Type} (msg : string) : M A := fun _ => Panic msg.
Definition bind {A B : Type} (c : M A) (k : A -> M B) : M B :=
  fun m =>
    match c m with
    | Ret a m' => k a m'
    | Fail err m' => Fail err m'
    | Panic msg => Panic msg
    end.
Definition get {A : Type} (f : VM -> A) : M A := fun m => Ret (f m) m.
Definition modify (f : VM -> VM) : M unit := fun m => Ret tt (f m).

(** A partial Go operation: [None] panics with [msg]. *)
Definition orPanic {A : Type} (msg : string) (o : option A) : M A :=
  match o with
  | Some a => ret a
  | None => panic msg
  end.

Declare Scope vm_scope.
Delimit Scope vm_scope with vm.
Notation "x <- c ;; k" := (bind c (fun x => k))
  (at level 100, c at next level, right associativity) : vm_scope.
Notation "c ;; k" := (bind c (fun _ => k))
  (at level 100, right associativity) : vm_scope.
Local Open Scope vm_scope.

Definition out_of_range : string := "index out of range".
Definition nil_deref : string := "invalid memory address or nil pointer dereference".
Definition bad_assertion : string := "interface conversion".
Definition div_by_zero : string := "integer divide by zero".

(** [&object.T{...}]: a new struct at a fresh address of the heap. *)
Definition new (s : Struct) : M Object :=
  fun m => Ret (Some (length (heap m))) (set_heap (heap m ++ [s]) m).

(** [o.Type()]: a method call through the interface, so it panics on
    [nil]. *)
Definition typeOf (o : Object) : M ObjectType :=
  h <- get heap ;;
  s <- orPanic nil_deref (deref h o) ;;
  ret (Type_ s).

(** [o.( *object.Integer).Value] *)
Definition integerValue (o : Object) : M Z :=
  h <- get heap ;;
  match deref h o with
  | Some (Integer v) => ret v
  | _ => panic bad_assertion
  end.

Definition StackTop (m : VM) : option Object :=
  if decide (sp m = 0) then Some nil else index (stack m) (sp m - 1).

Definition push (o : Object) : M unit :=
  fun m =>
    if decide (sp m >= StackSize) then Fail "stack overflow" m
    else if decide (0 <= sp m < Z.of_nat (length (stack m))) then
      Ret tt (set_sp (sp m + 1) (set_stack (<[Z.to_nat (sp m) := o]> (stack m)) m))
    else Panic out_of_range.

Definition pop : M Object :=
  fun m =>
    if decide (sp m = 0) then Ret nil m
    else match index (stack m) (sp m - 1) with
         | Some o => Ret o (set_sp (sp m - 1) m)
         | None => Panic out_of_range
         end.

(** [LastPopped]: [None] is the index-out-of-range panic. *)
Definition LastPopped (m : VM) : option Object := index (stack m) (sp m).

Definition isTruthy (h : list Struct) (obj : Object) : bool :=
  match deref h obj with
  | Some (Boolean Value) => Value
  | Some object.Null => false
  | _ => true
  end.

Definition executeBangOperator : M unit :=
  operand <- pop ;;
  if decide (operand = vm.True) then push vm.False
  else if decide (operand = vm.False \/ operand = vm.Null) then push vm.True
  else push vm.False.

Definition executeMinusOperator : M unit :=
  operand <- pop ;;
  t <- typeOf operand ;;
  if decide (t <> INTEGER_OBJ) then
    fail ("unsupported type for negation by minus: " +:+ t)
  else
    value <- integerValue operand ;;
    o <- new (Integer (int64 (- value))) ;;
    push o.

(** *** The dispatch loop and the handlers that switch on the opcode *)

(** [compiler.ByteCode] *)
Record ByteCode : Type := mkByteCode {
  Instructions_ : Instructions;
  Constants : list Object
}.

Section Dispatch.

(** Package [code] is not among the sources.  Its opcode constants enter
    [vm.go] only as the labels of its [switch] statements, which Go
    requires to be pairwise different: [decode b] is the constant the
    byte [b] equals, [None] when it equals none of them. *)
Variable decode : Opcode -> option Op.

Definition executeBinaryIntegerOperation
    (opcode : Opcode) (left right : Object) : M unit :=
  leftValue <- integerValue left ;;
  rightValue <- integerValue right ;;
  result <-
    match decode opcode with
    | Some OpAdd => ret (int64 (leftValue + rightValue))
    | Some OpSub => ret (int64 (leftValue - rightValue))
    | Some OpMul => ret (int64 (leftValue * rightValue))
    | Some OpDiv =>
        if decide (rightValue = 0) then panic div_by_zero
        else ret (int64 (leftValue ÷ rightValue))
    | _ => fail ("unknown integer operator: " +:+ pretty (byteval opcode))
    end ;;
  o <- new (Integer result) ;;
  push o.

Definition executeBinaryOperation (opcode : Opcode) : M unit :=
  right <- pop ;;
  left <- pop ;;
  rightType <- typeOf right ;;
  leftType <- typeOf left ;;
  if decide (rightType = INTEGER_OBJ /\ leftType = INTEGER_OBJ) then
    executeBinaryIntegerOperation opcode left right
  else
    fail ("unsupported types for binary operation: "
            +:+ leftType +:+ " and " +:+ rightType).

Definition executeIntegerComparison
    (opcode : Opcode) (left right : Object) : M unit :=
  leftValue <- integerValue left ;;
  rightValue <- integerValue right ;;
  result <-
    match decode opcode with
    | Some OpEqual => ret (bool_decide (leftValue = rightValue))
    | Some OpNotEqual => ret (bool_decide (leftValue <> rightValue))
    | Some OpGreaterThan => ret (bool_decide (leftValue > rightValue))
    | _ => fail ("unknown integer operator: " +:+ pretty (byteval opcode))
    end ;;
  o <- new (Boolean result) ;;
  push o.

Definition executeComparison (opcode : Opcode) : M unit :=
  right <- pop ;;
  left <- pop ;;
  rightType <- typeOf right ;;
  leftType <- typeOf left ;;
  if decide (rightType = INTEGER_OBJ /\ leftType = INTEGER_OBJ) then
    executeIntegerComparison opcode left right
  else
    match decode opcode with
    | Some OpEqual =>
        o <- new (Boolean (bool_decide (left = right))) ;; push o
    | Some OpNotEqual =>
        o <- new (Boolean (bool_decide (left <> right))) ;; push o
    | _ =>
        fail ("unsupported types for binary operation: "
                +:+ leftType +:+ " and " +:+ rightType)
    end.

(** [code.ReadUint16(vm.instructions[ip+1:])] *)
Definition readOperand (ip : Z) : M Z :=
  ins <- get instructions ;;
  rest <- orPanic out_of_range (slice_from ins (ip + 1)) ;;
  orPanic out_of_range (ReadUint16 rest).

(** The [switch opcode] of the loop of [Run], at the instruction pointer
    [ip]; it returns the value of [ip] at the end of the loop body, before
    the [ip++] of the loop.  A byte that is none of the opcodes matches no
    case. *)
Definition Run_switch (ip : Z) (opcode : Opcode) : M Z :=
  match decode opcode with
  | Some OpConstant =>
      idx <- readOperand ip ;;
      cs <- get constants ;;
      c <- orPanic out_of_range (index cs idx) ;;
      push c ;;
      ret (ip + 2)
  | Some OpTrue => push vm.True ;; ret ip
  | Some OpFalse => push vm.False ;; ret ip
  | Some OpNull => push vm.Null ;; ret ip
  | Some OpBang => executeBangOperator ;; ret ip
  | Some OpMinus => executeMinusOperator ;; ret ip
  | Some (OpAdd | OpSub | OpMul | OpDiv) =>
      executeBinaryOperation opcode ;; ret ip
  | Some (OpEqual | OpNotEqual | OpGreaterThan) =>
      executeComparison opcode ;; ret ip
  | Some OpPop => pop ;; ret ip
  | Some OpJump =>
      pos <- readOperand ip ;;
      ret (pos - 1)
  | Some OpJumpNotTruthy =>
      pos <- readOperand ip ;;
      condition <- pop ;;
      h <- get heap ;;
      if negb (isTruthy h condition) then ret (pos - 1) else ret (ip + 2)
  | Some OpSetGlobal =>
      idx <- readOperand ip ;;
      o <- pop ;;
      g <- get globals ;;
      if decide (0 <= idx < Z.of_nat (length g)) then
        modify (set_globals (<[Z.to_nat idx := o]> g)) ;;
        ret (ip + 2)
      else panic out_of_range
  | Some OpGetGlobal =>
      idx <- readOperand ip ;;
      g <- get globals ;;
      o <- orPanic out_of_range (index g idx) ;;
      push o ;;
      ret (ip + 2)
  | None => ret ip
  end.

(** The body of the loop: [opcode := code.Opcode(vm.instructions[ip])],
    then the switch. *)
Definition Run_body (ip : Z) : M Z :=
  ins <- get instructions ;;
  opcode <- orPanic out_of_range (index ins ip) ;;
  Run_switch ip opcode.

(** [for ip := 0; ip < len(vm.instructions); ip++ { ... }]: the loop can
    run for ever (a jump to itself), so it is given fuel, one unit per
    iteration; [None] means the fuel ran out before [Run] returned. *)
Fixpoint Run_loop (fuel : nat) (ip : Z) (m : VM) : option (Res unit) :=
  if decide (ip < Z.of_nat (length (instructions m))) then
    match fuel with
    | O => None
    | S fuel' =>
        match Run_body ip m with
        | Ret ip' m' => Run_loop fuel' (ip' + 1) m'
        | Fail err m' => Some (Fail err m')
        | Panic msg => Some (Panic msg)
        end
    end
  else Some (Ret tt m).

Definition Run (fuel : nat) (m : VM) : option (Res unit) :=
  Run_loop fuel 0 m.

End Dispatch.

(** [New] and [NewWithGlobals], on the heap [h] that holds the singletons
    and the constants of the byte code. *)
Definition New (h : list Struct) (byteCode : ByteCode) : VM :=
  {| heap := h;
     constants := Constants byteCode;
     instructions := Instructions_ byteCode;
     globals := replicate (Z.to_nat GlobalsSize) nil;
     stack := replicate (Z.to_nat StackSize) nil;
     sp := 0 |}.

Definition NewWithGlobals
    (h : list Struct) (byteCode : ByteCode) (globals : list Object) : VM :=
  set_globals globals (New h byteCode).

End vm.

(** ** Package [repl] *)

Module repl.
Import object code vm.

(** [Start] prints the prompt with [fmt.Printf], on the standard output and
    not on [out]. *)
Definition prompt : string := ">> ".

Definition newline : string := String (ascii_of_nat 10) EmptyString.
Definition tab : string := String (ascii_of_nat 9) EmptyString.

(** The writer [out] is the list of the strings written to it so far, the
    oldest first; [io.WriteString] appends one. *)
Definition WriteString (out : list string) (s : string) : list string :=
  out ++ [s].

Definition printParserErrors (out : list string) (errors : list string)
    : list string :=
  let out := WriteString out ("Woops! We ran into some monkey business here!" +:+ newline) in
  let out := WriteString out (" parser errors:" +:+ newline) in
  foldl (fun out msg => WriteString out (tab +:+ msg +:+ newline)) out errors.

(** What [Start] carries from one line to the next: what was written, the
    globals array shared by the machines of all lines, and the heap. *)
Record Session : Type := mkSession {
  out : list string;
  globals : list Object;
  heap : list Struct
}.

(** How one turn of the loop of [Start] ends: it goes on to the next line,
    or the process dies of a panic. *)
Inductive Turn : Type :=
| Next (s : Session)
| Crash (msg : string).

(** The end of a turn: [result := machine.LastPopped()], then
    [result.Inspect()] and a newline are written. *)
Definition printResult (out : list string) (machine : VM) : Turn :=
  match LastPopped machine with
  | None => Crash out_of_range
  | Some result =>
      match deref (vm.heap machine) result with
      | None => Crash nil_deref
      | Some obj =>
          let out := WriteString out (Inspect obj) in
          let out := WriteString out newline in
          Next (mkSession out (vm.globals machine) (vm.heap machine))
      end
  end.

Section Start.

Variable decode : Opcode -> option Op.

(** One turn of the loop of [Start] once the collaborators that are not
    among the sources have answered: [errors] is [p.Errors()],
    [compileErr] the error of [comp.Compile(program)] ([None] for [nil])
    and [byteCode] is [comp.ByteCode()].  [None] means that the fuel given
    to [Run] ran out. *)
Definition turn (fuel : nat) (errors : list string)
    (compileErr : option string) (byteCode : ByteCode) (s : Session)
    : option Turn :=
  if decide (length errors <> 0%nat) then
    Some (Next (mkSession (printParserErrors (out s) errors)
                          (globals s) (heap s)))
  else
    let out :=
      match compileErr with
      | Some err => WriteString (out s) ("error during compilation: " +:+ err)
      | None => out s
      end in
    let machine := NewWithGlobals (heap s) byteCode (globals s) in
    match Run decode fuel machine with
    | None => None
    | Some (Panic msg) => Some (Crash msg)
    | Some (Fail err machine) =>
        Some (printResult
                (WriteString out ("error during execution: " +:+ err))
                machine)
    | Some (Ret _ machine) => Some (printResult out machine)
    end.

(** The collaborators: the lexer and parser give the program of a line
    and the parser's errors; the compiler, built on the symbol table [Start]
    keeps and on the heap, gives the error of [Compile], the byte code, and
    the symbol table and heap it leaves. *)
Context {Program SymbolTable : Type}.
Variable ParseProgram : string -> Program * list string.
Variable Compile :
  SymbolTable -> list Struct -> Program ->
  option string * ByteCode * SymbolTable * list Struct.

(** [Start] on the lines the scanner yields, until it yields no more. *)
Fixpoint Start_loop (fuel : nat) (lines : list string)
    (symbolTable : SymbolTable) (s : Session) : option Turn :=
  match lines with
  | [] => Some (Next s)
  | line :: lines =>
      let '(program, errors) := ParseProgram line in
      if decide (length errors <> 0%nat) then
        match turn fuel errors None (mkByteCode [] []) s with
        | Some (Next s) => Start_loop fuel lines symbolTable s
        | stop => stop
        end
      else
        let '(compileErr, byteCode, symbolTable, h) :=
          Compile symbolTable (heap s) program in
        match turn fuel errors compileErr byteCode
                (mkSession (out s) (globals s) h) with
        | Some (Next s) => Start_loop fuel lines symbolTable s
        | stop => stop
        end
  end.

Definition Start (fuel : nat) (lines : list string)
    (symbolTable : SymbolTable) : option Turn :=
  Start_loop fuel lines symbolTable
    (mkSession [] (replicate (Z.to_nat GlobalsSize) nil) initial_heap).

End Start.

Definition written (t : option Turn) : option (list string) :=
  match t with
  | Some (Next s) => Some (out s)
  | _ => None
  end.

End repl.

(** ** Definitions used to state the properties *)

Module props.
Import object code vm.

(** The arithmetic the specification gives to the four binary opcodes, on
    unbounded integers; division truncates towards zero. *)
Definition arith (op : Op) (a b : Z) : Z :=
  match op with
  | OpAdd => a + b
  | OpSub => a - b
  | OpMul => a * b
  | OpDiv => a ÷ b
  | _ => 0
  end.

Definition is_arith (op : Op) : Prop :=
  op = OpAdd \/ op = OpSub \/ op = OpMul \/ op = OpDiv.

(** Truthiness as the specification words it: a Boolean is truthy iff its
    bit is set, Null is not truthy, anything else is. *)
Definition truthy (v : option Struct) : bool :=
  match v with
  | Some (Boolean b) => b
  | Some object.Null => false
  | Some (Integer _) => true
  | None => true
  end.

(** The two operand bytes after the opcode at [ip] are [hi] and [lo]. *)
Definition operand_at (m : VM) (ip : Z) (hi lo : Byte.byte) : Prop :=
  index (instructions m) (ip + 1) = Some hi /\
  index (instructions m) (ip + 2) = Some lo.

Definition u16 (hi lo : Byte.byte) : Z := byteval hi * 256 + byteval lo.

(** The instruction at [ip] pushes without popping first: [OpTrue],
    [OpFalse], [OpNull], or [OpConstant] and [OpGetGlobal] with an operand
    that is in range. *)
Definition pushes (decode : Opcode -> option Op) (m : VM) (ip : Z)
    (opcode : Opcode) : Prop :=
  decode opcode = Some OpTrue \/ decode opcode = Some OpFalse \/
  decode opcode = Some OpNull \/
  (exists hi lo, operand_at m ip hi lo /\
     ((decode opcode = Some OpConstant /\
       is_Some (index (constants m) (u16 hi lo))) \/
      (decode opcode = Some OpGetGlobal /\
       is_Some (index (globals m) (u16 hi lo))))).

(** What a finished or failed [Run] leaves for [LastPopped]: the pointer
    and the struct it points to. *)
Definition lastPopped (r : option (Res unit)) : option (Object * option Struct) :=
  match r with
  | Some (Ret _ m) | Some (Fail _ m) =>
      match LastPopped m with
      | Some o => Some (o, deref (heap m) o)
      | None => None
      end
  | _ => None
  end.

(** The machine on top of whose stack [Run] has returned normally. *)
Definition stackTop (r : option (Res unit)) : option (Object * option Struct) :=
  match r with
  | Some (Ret _ m) =>
      match StackTop m with
      | Some o => Some (o, deref (heap m) o)
      | None => None
      end
  | _ => None
  end.

(** A full stack, to witness overflow. *)
Definition full (m : VM) : VM := set_sp StackSize m.

(** The machine [New] builds for byte code as the compiler leaves it: every
    integer literal of [literals] is a new [object.Integer] on the heap, after
    the three singletons, and the constant pool points to them in order. *)
Definition machine (literals : list Z) (ins : list Instructions) : VM :=
  New (initial_heap ++ (Integer <$> literals))
      (mkByteCode (concat ins) (Some <$> seq 3 (length literals))).

(** The machine [m] with the values [vs] on its stack, the last one on
    top. *)
Definition loaded (vs : list Object) (m : VM) : VM :=
  set_sp (Z.of_nat (length vs))
    (set_stack (vs ++ drop (length vs) (stack m)) m).

(** A heap that begins with the three singletons. *)
Definition canonical_heap (h : list Struct) : Prop :=
  exists rest, h = initial_heap ++ rest.

(** The values on which identity decides as the value would: the three
    singletons, and the pointers to integers. *)
Definition singleton_or_integer (h : list Struct) (v : Object) : Prop :=
  v = vm.True \/ v = vm.False \/ v = vm.Null \/
  exists n a, v = Some n /\ (3 <= n)%nat /\ h !! n = Some (Integer a).

(** The session [Start] begins with. *)
Definition fresh_session : repl.Session :=
  repl.mkSession [] (replicate (Z.to_nat GlobalsSize) nil) initial_heap.

(** Byte code of the lines used below, as the emission rules of the compiler
    give it. *)
Definition code_eq_1_1 : list Instructions :=
  [Make1 OpConstant 0; Make1 OpConstant 1; Make0 OpEqual].
Definition code_eq_1_1_eq_true : list Instructions :=
  code_eq_1_1 ++ [Make0 OpTrue; Make0 OpEqual; Make0 OpPop].
Definition code_eq_1_2 : list Instructions :=
  [Make1 OpConstant 0; Make1 OpConstant 1; Make0 OpEqual].
Definition code_bang_eq_1_2 : list Instructions :=
  code_eq_1_2 ++ [Make0 OpBang; Make0 OpPop].
Definition code_bang_bang_eq_1_2 : list Instructions :=
  code_eq_1_2 ++ [Make0 OpBang; Make0 OpBang; Make0 OpPop].
Definition code_minus_true : list Instructions :=
  [Make0 OpTrue; Make0 OpMinus; Make0 OpPop].
Definition code_1_then_undefined : list Instructions :=
  [Make1 OpConstant 0; Make0 OpPop].

(** *** What a run keeps *)

(** The method returned, with or without an error, in the state [m']. *)
Definition returned {A : Type} (r : Res A) (m' : VM) : Prop :=
  (exists a, r = Ret a m') \/ (exists err, r = Fail err m').

(** [Run] ended, with or without an error, in the state [m']. *)
Definition ended (r : option (Res unit)) (m' : VM) : Prop :=
  exists r', r = Some r' /\ returned r' m'.

(** The frame of the machine: the code and the constants are the same, the
    two arrays have the length they had, the heap has only grown, and a stack
    pointer within the bounds is still within them. *)
Definition preserved (m m' : VM) : Prop :=
  instructions m' = instructions m /\
  constants m' = constants m /\
  length (stack m') = length (stack m) /\
  length (globals m') = length (globals m) /\
  (exists ext, heap m' = heap m ++ ext) /\
  (0 <= sp m <= StackSize -> 0 <= sp m' <= StackSize).

Definition keeps {A : Type} (c : M A) : Prop :=
  forall m m', returned (c m) m' -> preserved m m'.


(** *** Comparisons and operands *)

Definition is_comparison (op : Op) : Prop :=
  op = OpEqual \/ op = OpNotEqual \/ op = OpGreaterThan.

(** The comparison of two integers the three opcodes stand for. *)
Definition compare (op : Op) (a b : Z) : bool :=
  match op with
  | OpEqual => a =? b
  | OpNotEqual => negb (a =? b)
  | OpGreaterThan => b <? a
  | _ => false
  end.



(** *** Small machines and sessions to run the properties on *)

(** As [machine], with a globals array of the caller, as [NewWithGlobals]
    takes it. *)
Definition machineG (literals : list Z) (ins : list Instructions)
    (globals : list Object) : VM :=
  NewWithGlobals (initial_heap ++ (Integer <$> literals))
    (mkByteCode (concat ins) (Some <$> seq 3 (length literals))) globals.

Definition four_globals : list Object := replicate 4 nil.

(** The machine for [1 + 2;]. *)
Definition sum_machine : VM :=
  machineG [1; 2]
    [Make1 OpConstant 0; Make1 OpConstant 1; Make0 OpAdd; Make0 OpPop]
    four_globals.

Definition small_session : repl.Session :=
  repl.mkSession ["earlier"] four_globals initial_heap.


(** What [printParserErrors] writes for the errors of the parser. *)
Definition parser_report (errors : list string) : list string :=
  [ "Woops! We ran into some monkey business here!" +:+ repl.newline;
    " parser errors:" +:+ repl.newline ]
  ++ ((fun msg => repl.tab +:+ msg +:+ repl.newline) <$> errors).

(** A front end that reads every line as [true;]. *)
Definition parse_true (line : string) : unit * list string := (tt, []).
Definition compile_true (st : unit) (h : list Struct) (program : unit)
    : option string * ByteCode * unit * list Struct :=
  (None, mkByteCode (concat [Make0 OpTrue; Make0 OpPop]) [], st, h).

End props.

(** ** Properties of the operand stack *)

Import object code vm props.
Local Open Scope vm_scope.

Section Stack.

Variable decode : Opcode -> option Op.

Lemma index_Some {A : Type} (l : list A) (i : Z) (x : A) :
  index l i = Some x <-> 0 <= i /\ l !! Z.to_nat i = Some x.
Proof.
  unfold index. destruct (decide (0 <= i)); split; intros H.
  - auto.
  - tauto.
  - discriminate.
  - tauto.
Qed.

Lemma index_lt {A : Type} (l : list A) (i : Z) (x : A) :
  index l i = Some x -> 0 <= i < Z.of_nat (length l).
Proof.
  intros [H0 H]%index_Some. apply lookup_lt_Some in H. lia.
Qed.

Lemma index_insert_eq {A : Type} (l : list A) (i : Z) (x : A) :
  0 <= i < Z.of_nat (length l) ->
  index (<[Z.to_nat i := x]> l) i = Some x.
Proof.
  intros H. apply index_Some. split; [lia |].
  apply list_lookup_insert_eq. lia.
Qed.

Lemma index_insert_ne {A : Type} (l : list A) (i j : Z) (x : A) :
  0 <= i -> i <> j ->
  index (<[Z.to_nat i := x]> l) j = index l j.
Proof.
  intros Hi Hne. unfold index. destruct (decide (0 <= j)); [| reflexivity].
  apply list_lookup_insert_ne. lia.
Qed.

Lemma push_ok (o : Object) (m : VM) :
  0 <= sp m < StackSize -> sp m < Z.of_nat (length (stack m)) ->
  push o m = Ret tt (set_sp (sp m + 1)
                       (set_stack (<[Z.to_nat (sp m) := o]> (stack m)) m)).
Proof.
  intros H1 H2. unfold push.
  destruct (decide (sp m >= StackSize)); [lia |].
  destruct (decide (0 <= sp m < Z.of_nat (length (stack m)))); [reflexivity | lia].
Qed.

Lemma push_full (o : Object) (m : VM) :
  sp m >= StackSize -> push o m = Fail "stack overflow" m.
Proof.
  intros H. unfold push. destruct (decide (sp m >= StackSize)); [reflexivity | lia].
Qed.

Lemma pop_ok (m : VM) (v : Object) :
  sp m <> 0 -> index (stack m) (sp m - 1) = Some v ->
  pop m = Ret v (set_sp (sp m - 1) m).
Proof.
  intros H1 H2. unfold pop. destruct (decide (sp m = 0)); [lia |].
  rewrite H2. reflexivity.
Qed.

Lemma Run_loop_unfold (fuel : nat) (ip : Z) (m : VM) (opcode : Opcode) :
  index (instructions m) ip = Some opcode ->
  Run_loop decode (S fuel) ip m =
    match Run_body decode ip m with
    | Ret ip' m' => Run_loop decode fuel (ip' + 1) m'
    | Fail err m' => Some (Fail err m')
    | Panic msg => Some (Panic msg)
    end.
Proof.
  intros H%index_lt. simpl.
  destruct (decide (ip < Z.of_nat (length (instructions m)))); [reflexivity | lia].
Qed.

Lemma Run_body_fetch (ip : Z) (m : VM) (opcode : Opcode) :
  index (instructions m) ip = Some opcode ->
  Run_body decode ip m = Run_switch decode ip opcode m.
Proof.
  intros H. unfold Run_body, bind, get, orPanic. rewrite H. reflexivity.
Qed.

Lemma readOperand_ok (ip : Z) (m : VM) (hi lo : Byte.byte) :
  operand_at m ip hi lo -> readOperand ip m = Ret (u16 hi lo) m.
Proof.
  intros [[Hhi0 Hhi]%index_Some [Hlo0 Hlo]%index_Some].
  unfold readOperand, bind, get, orPanic, slice_from.
  pose proof (lookup_lt_Some _ _ _ Hhi) as Hlt.
  destruct (decide (0 <= ip + 1 <= Z.of_nat (length (instructions m)))); [| lia].
  rewrite (drop_S _ _ _ Hhi).
  replace (Z.to_nat (ip + 2)) with (S (Z.to_nat (ip + 1))) in Hlo by lia.
  rewrite (drop_S _ _ _ Hlo). reflexivity.
Qed.

End Stack.

Section StackDiscipline.

Variable decode : Opcode -> option Op.

Lemma pushes_overflow (m : VM) (ip : Z) (opcode : Opcode) :
  sp m >= StackSize -> pushes decode m ip opcode ->
  Run_switch decode ip opcode m = Fail "stack overflow" m.
Proof.
  intros Hfull Hp. unfold Run_switch.
  destruct Hp as [-> | [-> | [-> | (hi & lo & Hop & [[-> [c Hc]] | [-> [c Hc]]])]]];
    unfold bind at 1.
  - by rewrite push_full.
  - by rewrite push_full.
  - by rewrite push_full.
  - rewrite (readOperand_ok _ _ _ _ Hop). unfold bind, get, orPanic.
    rewrite Hc. unfold ret. by rewrite push_full.
  - rewrite (readOperand_ok _ _ _ _ Hop). unfold bind, get, orPanic.
    rewrite Hc. unfold ret. by rewrite push_full.
Qed.

(** C8.  [push] returns an error only when [sp >= StackSize], and then the
    error is "stack overflow" and the machine is left as it was; below
    [StackSize] it stores the value at [stack[sp]], adds one to [sp] and
    changes no other slot and no other field.  So an instruction that
    pushes on a full stack makes [Run] return "stack overflow". *)
Theorem push_stack_overflow (o : Object) (m : VM) :
  0 <= sp m -> Z.of_nat (length (stack m)) = StackSize ->
  (forall err m', push o m = Fail err m' -> sp m >= StackSize) /\
  (sp m >= StackSize -> push o m = Fail "stack overflow" m) /\
  (sp m < StackSize ->
     push o m = Ret tt (mkVM (heap m) (constants m) (instructions m) (globals m)
                          (<[Z.to_nat (sp m) := o]> (stack m)) (sp m + 1)) /\
     index (<[Z.to_nat (sp m) := o]> (stack m)) (sp m) = Some o /\
     forall i, i <> sp m ->
       index (<[Z.to_nat (sp m) := o]> (stack m)) i = index (stack m) i) /\
  (sp m >= StackSize ->
     forall fuel ip opcode,
       index (instructions m) ip = Some opcode ->
       pushes decode m ip opcode ->
       Run_loop decode (S fuel) ip m = Some (Fail "stack overflow" m)).
Proof.
  intros Hsp Hlen. repeat split.
  - intros err m'. unfold push.
    destruct (decide (sp m >= StackSize)); [done |].
    destruct (decide (0 <= sp m < Z.of_nat (length (stack m)))); discriminate.
  - apply push_full.
  - rewrite push_ok by lia. reflexivity.
  - apply index_insert_eq. lia.
  - intros i Hi. by apply index_insert_ne.
  - intros Hfull fuel ip opcode Hfetch Hp.
    rewrite (Run_loop_unfold _ _ _ _ _ Hfetch), (Run_body_fetch _ _ _ _ Hfetch).
    by rewrite pushes_overflow.
Qed.

(** C10.  [pop] on an empty stack returns [nil] and leaves the machine as
    it is, [sp] still 0, without reading any slot; so [OpPop] on an empty
    stack is a step that changes nothing. *)
Theorem pop_empty (m : VM) :
  sp m = 0 ->
  pop m = Ret nil m /\
  forall ip opcode,
    index (instructions m) ip = Some opcode ->
    decode opcode = Some OpPop ->
    Run_body decode ip m = Ret ip m.
Proof.
  intros Hsp.
  assert (Hpop : pop m = Ret nil m).
  { unfold pop. destruct (decide (sp m = 0)); [reflexivity | contradiction]. }
  split; [exact Hpop |].
  intros ip opcode Hfetch Hop.
  rewrite (Run_body_fetch _ _ _ _ Hfetch). unfold Run_switch. rewrite Hop.
  unfold bind. rewrite Hpop. reflexivity.
Qed.

(** C7.  A [pop] from a non-empty stack returns the value [v] of the top
    slot and leaves the slots untouched, so that [LastPopped] of the machine
    after the pop is [v], and stays [v] as long as the stack and [sp] are
    what the pop left. *)
Theorem LastPopped_after_pop (m : VM) :
  0 < sp m <= Z.of_nat (length (stack m)) ->
  exists v m',
    index (stack m) (sp m - 1) = Some v /\
    pop m = Ret v m' /\
    LastPopped m' = Some v /\
    sp m' = sp m - 1 /\ stack m' = stack m /\
    forall m'', stack m'' = stack m' -> sp m'' = sp m' ->
                LastPopped m'' = Some v.
Proof.
  intros Hsp.
  destruct (lookup_lt_is_Some_2 (stack m) (Z.to_nat (sp m - 1))) as [v Hv]; [lia |].
  assert (Hidx : index (stack m) (sp m - 1) = Some v).
  { apply index_Some. split; [lia | exact Hv]. }
  exists v, (set_sp (sp m - 1) m). split; [exact Hidx |].
  split; [apply pop_ok; [lia | exact Hidx] |].
  split; [exact Hidx |]. split; [reflexivity |]. split; [reflexivity |].
  intros m'' Hst Hs. unfold LastPopped. rewrite Hst, Hs. exact Hidx.
Qed.

(** C9.  A byte that is none of the opcodes is skipped: the loop body
    returns no error and leaves the machine (stack, [sp], globals and all)
    as it is, and the loop goes on at [ip + 1]. *)
Theorem unknown_opcode_ignored (m : VM) (ip : Z) (opcode : Opcode) :
  index (instructions m) ip = Some opcode ->
  decode opcode = None ->
  Run_body decode ip m = Ret ip m /\
  forall fuel, Run_loop decode (S fuel) ip m = Run_loop decode fuel (ip + 1) m.
Proof.
  intros Hfetch Hop.
  assert (Hbody : Run_body decode ip m = Ret ip m).
  { rewrite (Run_body_fetch _ _ _ _ Hfetch). unfold Run_switch. by rewrite Hop. }
  split; [exact Hbody |].
  intros fuel. rewrite (Run_loop_unfold _ _ _ _ _ Hfetch), Hbody. reflexivity.
Qed.

End StackDiscipline.


(** ** Properties of the operator handlers *)

Section Operators.

Variable decode : Opcode -> option Op.

Lemma isTruthy_truthy (h : list Struct) (v : Object) :
  isTruthy h v = truthy (deref h v).
Proof.
  unfold isTruthy, truthy. destruct (deref h v) as [[a | b |] |]; reflexivity.
Qed.

Lemma int64_exact (z : Z) : - 2 ^ 63 <= z < 2 ^ 63 -> int64 z = z.
Proof.
  intros H. unfold int64. rewrite Z.mod_small; lia.
Qed.

Lemma int64_range (z : Z) : - 2 ^ 63 <= int64 z < 2 ^ 63.
Proof.
  unfold int64. pose proof (Z.mod_pos_bound (z + 2 ^ 63) (2 ^ 64)). lia.
Qed.

Lemma typeOf_ok (m : VM) (o : Object) (s : Struct) :
  deref (heap m) o = Some s -> typeOf o m = Ret (Type_ s) m.
Proof.
  intros H. unfold typeOf, bind, get, orPanic. rewrite H. reflexivity.
Qed.

Lemma integerValue_ok (m : VM) (o : Object) (v : Z) :
  deref (heap m) o = Some (Integer v) -> integerValue o m = Ret v m.
Proof.
  intros H. unfold integerValue, bind, get. rewrite H. reflexivity.
Qed.

(** The two pops that open [executeBinaryOperation] and
    [executeComparison]. *)
Lemma pop_pop (m : VM) (left right : Object) (B : Type) (k : Object -> Object -> M B) :
  2 <= sp m ->
  index (stack m) (sp m - 1) = Some right ->
  index (stack m) (sp m - 2) = Some left ->
  (right <- pop ;; left <- pop ;; k left right) m =
  k left right (set_sp (sp m - 2) m).
Proof.
  intros Hsp Hr Hl. unfold bind at 1. rewrite (pop_ok m right) by (lia || done).
  unfold bind at 1. rewrite (pop_ok (set_sp (sp m - 1) m) left); simpl.
  - unfold set_sp; simpl. do 2 f_equal. lia.
  - lia.
  - replace (sp m - 1 - 1) with (sp m - 2) by lia. exact Hl.
Qed.

(** C5.  [OpJumpNotTruthy] pops one value; the loop goes on at the
    big-endian target of the two operand bytes when the value is not truthy,
    and at the instruction after the operand when it is, where a Boolean is
    truthy iff its bit is set, Null is not truthy and anything else (every
    integer) is. *)
Theorem jump_not_truthy (m : VM) (ip : Z) (opcode : Opcode)
    (hi lo : Byte.byte) (v : Object) :
  index (instructions m) ip = Some opcode ->
  decode opcode = Some OpJumpNotTruthy ->
  operand_at m ip hi lo ->
  0 < sp m ->
  index (stack m) (sp m - 1) = Some v ->
  Run_body decode ip m =
    Ret (if truthy (deref (heap m) v) then ip + 2 else u16 hi lo - 1)
        (set_sp (sp m - 1) m) /\
  forall fuel,
    Run_loop decode (S fuel) ip m =
    Run_loop decode fuel
      (if truthy (deref (heap m) v) then ip + 3 else u16 hi lo)
      (set_sp (sp m - 1) m).
Proof.
  intros Hfetch Hop Hoperand Hsp Hv.
  assert (Hbody : Run_body decode ip m =
    Ret (if truthy (deref (heap m) v) then ip + 2 else u16 hi lo - 1)
        (set_sp (sp m - 1) m)).
  { rewrite (Run_body_fetch _ _ _ _ Hfetch). unfold Run_switch. rewrite Hop.
    unfold bind at 1. rewrite (readOperand_ok _ _ _ _ Hoperand).
    unfold bind at 1. rewrite (pop_ok m v) by (lia || done).
    unfold bind, get. simpl. rewrite isTruthy_truthy.
    destruct (truthy (deref (heap m) v)); reflexivity. }
  split; [exact Hbody |].
  intros fuel. rewrite (Run_loop_unfold _ _ _ _ _ Hfetch), Hbody.
  destruct (truthy (deref (heap m) v)); f_equal; lia.
Qed.

Lemma Type_INTEGER (s : Struct) :
  Type_ s = INTEGER_OBJ <-> exists v, s = Integer v.
Proof.
  split.
  - destruct s; try discriminate. eauto.
  - intros [v ->]. reflexivity.
Qed.

(** C4.  [OpAdd], [OpSub], [OpMul] and [OpDiv] pop the right operand, then
    the left one.  On two integers (and a divisor that is not zero for
    [OpDiv]) a new [Integer] holding the 64-bit result is pushed in place of
    the left operand, the result being the mathematical one whenever that fits
    in 64 bits; on any other pair of values the handler, and so [Run],
    returns the error naming the type of the left and of the right
    operand. *)
Theorem binary_operation (m : VM) (opcode : Opcode) (op : Op)
    (left right : Object) (l r : Struct) :
  decode opcode = Some op -> is_arith op ->
  2 <= sp m <= StackSize -> sp m <= Z.of_nat (length (stack m)) ->
  index (stack m) (sp m - 1) = Some right ->
  index (stack m) (sp m - 2) = Some left ->
  deref (heap m) left = Some l ->
  deref (heap m) right = Some r ->
  match l, r with
  | Integer a, Integer b =>
      (op = OpDiv -> b <> 0) ->
      let m' := mkVM (heap m ++ [Integer (int64 (arith op a b))])
                  (constants m) (instructions m) (globals m)
                  (<[Z.to_nat (sp m - 2) := Some (length (heap m))]> (stack m))
                  (sp m - 1) in
      executeBinaryOperation decode opcode m = Ret tt m' /\
      (- 2 ^ 63 <= arith op a b < 2 ^ 63 -> int64 (arith op a b) = arith op a b) /\
      forall fuel ip,
        index (instructions m) ip = Some opcode ->
        Run_loop decode (S fuel) ip m = Run_loop decode fuel (ip + 1) m'
  | _, _ =>
      let err := "unsupported types for binary operation: "
                   +:+ Type_ l +:+ " and " +:+ Type_ r in
      executeBinaryOperation decode opcode m = Fail err (set_sp (sp m - 2) m) /\
      forall fuel ip,
        index (instructions m) ip = Some opcode ->
        Run_loop decode (S fuel) ip m = Some (Fail err (set_sp (sp m - 2) m))
  end.
Proof.
  intros Hop Harith Hsp Hlen Hr Hl Hdl Hdr.
  assert (Hexec : executeBinaryOperation decode opcode m =
    (rightType <- typeOf right ;;
     leftType <- typeOf left ;;
     if decide (rightType = INTEGER_OBJ /\ leftType = INTEGER_OBJ) then
       executeBinaryIntegerOperation decode opcode left right
     else
       fail ("unsupported types for binary operation: "
               +:+ leftType +:+ " and " +:+ rightType)) (set_sp (sp m - 2) m)).
  { unfold executeBinaryOperation.
    apply (pop_pop m left right unit
             (fun left right =>
                rightType <- typeOf right ;;
                leftType <- typeOf left ;;
                if decide (rightType = INTEGER_OBJ /\ leftType = INTEGER_OBJ) then
                  executeBinaryIntegerOperation decode opcode left right
                else
                  fail ("unsupported types for binary operation: "
                          +:+ leftType +:+ " and " +:+ rightType)));
      [lia | done | done]. }
  assert (Hty : executeBinaryOperation decode opcode m =
    (if decide (Type_ r = INTEGER_OBJ /\ Type_ l = INTEGER_OBJ) then
       executeBinaryIntegerOperation decode opcode left right
     else
       fail ("unsupported types for binary operation: "
               +:+ Type_ l +:+ " and " +:+ Type_ r)) (set_sp (sp m - 2) m)).
  { rewrite Hexec. unfold bind at 1. rewrite (typeOf_ok _ _ r) by exact Hdr.
    unfold bind at 1. rewrite (typeOf_ok _ _ l) by exact Hdl. reflexivity. }
  assert (Hrun : forall err m',
    executeBinaryOperation decode opcode m = Fail err m' ->
    forall fuel ip,
      index (instructions m) ip = Some opcode ->
      Run_loop decode (S fuel) ip m = Some (Fail err m')).
  { intros err m' Hfail fuel ip Hfetch.
    rewrite (Run_loop_unfold _ _ _ _ _ Hfetch), (Run_body_fetch _ _ _ _ Hfetch).
    unfold Run_switch. rewrite Hop.
    destruct Harith as [-> | [-> | [-> | ->]]]; unfold bind; by rewrite Hfail. }
  assert (Hbad : ~ (Type_ r = INTEGER_OBJ /\ Type_ l = INTEGER_OBJ) ->
    let err := "unsupported types for binary operation: "
                 +:+ Type_ l +:+ " and " +:+ Type_ r in
    executeBinaryOperation decode opcode m = Fail err (set_sp (sp m - 2) m) /\
    forall fuel ip,
      index (instructions m) ip = Some opcode ->
      Run_loop decode (S fuel) ip m = Some (Fail err (set_sp (sp m - 2) m))).
  { intros Hno err.
    assert (Hf : executeBinaryOperation decode opcode m = Fail err (set_sp (sp m - 2) m)).
    { rewrite Hty. destruct (decide _); [contradiction | reflexivity]. }
    split; [exact Hf | exact (Hrun _ _ Hf)]. }
  destruct l as [a | bl |], r as [b | br |];
    try (apply Hbad; intros [H1 H2]; discriminate).
  intros Hdiv m'.
  assert (Hok : executeBinaryOperation decode opcode m = Ret tt m');
    [| split; [exact Hok |]; split; [apply int64_exact |];
       intros fuel ip Hfetch;
       rewrite (Run_loop_unfold _ _ _ _ _ Hfetch), (Run_body_fetch _ _ _ _ Hfetch);
       unfold Run_switch; rewrite Hop;
       destruct Harith as [-> | [-> | [-> | ->]]]; unfold bind; by rewrite Hok].
  subst m'. rewrite Hty. destruct (decide _) as [_ | Hno]; [| exfalso; apply Hno; done].
  unfold executeBinaryIntegerOperation.
  unfold bind at 1. rewrite (integerValue_ok _ _ a) by exact Hdl.
  unfold bind at 1. rewrite (integerValue_ok _ _ b) by exact Hdr.
  assert (Hres : forall m0,
    match decode opcode with
    | Some OpAdd => ret (int64 (a + b))
    | Some OpSub => ret (int64 (a - b))
    | Some OpMul => ret (int64 (a * b))
    | Some OpDiv =>
        if decide (b = 0) then panic div_by_zero else ret (int64 (a ÷ b))
    | _ => fail ("unknown integer operator: " +:+ pretty (byteval opcode))
    end m0 = Ret (int64 (arith op a b)) m0).
  { intros m0. rewrite Hop.
    destruct Harith as [-> | [-> | [-> | ->]]]; try reflexivity.
    destruct (decide (b = 0)); [exfalso; by apply Hdiv | reflexivity]. }
  unfold bind at 1. rewrite Hres.
  unfold bind, new. simpl. rewrite push_ok; simpl; try lia.
  unfold set_sp, set_stack, set_heap; simpl. do 2 f_equal. lia.
Qed.

End Operators.


(** ** Where the machine and the driver leave the specification *)

Section Comparisons.

Variable decode : Opcode -> option Op.

(** Whatever the operands, a comparison of two integers pushes a pointer to a
    Boolean allocated on the spot: it is neither [True] nor [False] on any
    heap that holds the singletons. *)
Lemma integerValue_state (m m' : VM) (o : Object) (v : Z) :
  integerValue o m = Ret v m' -> m' = m.
Proof.
  unfold integerValue, bind, get.
  destruct (deref (heap m) o) as [[a | |] |]; try discriminate.
  by intros [= _ <-].
Qed.

Lemma executeIntegerComparison_allocates (m m' : VM) (opcode : Opcode)
    (left right : Object) :
  (3 <= length (heap m))%nat ->
  executeIntegerComparison decode opcode left right m = Ret tt m' ->
  exists b,
    index (stack m') (sp m' - 1) = Some (Some (length (heap m))) /\
    heap m' = heap m ++ [Boolean b] /\
    Some (length (heap m)) <> vm.True /\ Some (length (heap m)) <> vm.False.
Proof.
  intros Hheap H.
  assert (Hpush : forall r,
    push (Some (length (heap m))) (set_heap (heap m ++ [Boolean r]) m) = Ret tt m' ->
    exists b0,
      index (stack m') (sp m' - 1) = Some (Some (length (heap m))) /\
      heap m' = heap m ++ [Boolean b0] /\
      Some (length (heap m)) <> vm.True /\ Some (length (heap m)) <> vm.False).
  { intros r. unfold push; simpl.
    destruct (decide (sp m >= StackSize)); [discriminate |].
    destruct (decide (0 <= sp m < Z.of_nat (length (stack m)))); [| discriminate].
    intros [= <-]. exists r; simpl. split.
    - replace (sp m + 1 - 1) with (sp m) by lia. apply index_insert_eq. lia.
    - split; [reflexivity |].
      unfold vm.True, vm.False. split; intros [= H']; lia. }
  unfold executeIntegerComparison in H. unfold bind at 1 in H.
  destruct (integerValue left m) as [a m1 | |] eqn:Ha; try discriminate.
  apply integerValue_state in Ha as ->.
  unfold bind at 1 in H.
  destruct (integerValue right m) as [b m1 | |] eqn:Hb; try discriminate.
  apply integerValue_state in Hb as ->.
  unfold bind at 1 in H.
  destruct (decode opcode) as [[] |]; simpl in H; try discriminate;
    unfold bind, new in H; simpl in H; eapply Hpush; exact H.
Qed.

End Comparisons.

(** C1.  The Boolean a comparison pushes is not one of the singletons.
    After [1 == 1] the top of the stack is a pointer to a new Boolean that
    holds true and is different from [True] and from [False]; and with
    equality of non-integers being identity of pointers,
    [(1 == 1) == true;] evaluates to false. *)
Theorem comparison_pushes_fresh_boolean :
  stackTop (Run op_of 3 (machine [1; 1] code_eq_1_1))
    = Some (Some 5%nat, Some (Boolean true)) /\
  Some 5%nat <> vm.True /\ Some 5%nat <> vm.False /\
  lastPopped (Run op_of 6 (machine [1; 1] code_eq_1_1_eq_true))
    = Some (Some 6%nat, Some (Boolean false)).
Proof.
  split; [vm_compute; reflexivity |].
  split; [discriminate |]. split; [discriminate |].
  vm_compute; reflexivity.
Qed.

(** C2.  [1 == 2] leaves on the stack a Boolean that holds false, whose
    truthiness is false; two [OpBang] on it give [True]: [!!(1 == 2);]
    evaluates to true. *)
Theorem bang_bang_of_comparison :
  stackTop (Run op_of 3 (machine [1; 2] code_eq_1_2))
    = Some (Some 5%nat, Some (Boolean false)) /\
  isTruthy (initial_heap ++ [Integer 1; Integer 2; Boolean false]) (Some 5%nat)
    = false /\
  lastPopped (Run op_of 6 (machine [1; 2] code_bang_bang_eq_1_2))
    = Some (vm.True, Some (Boolean true)).
Proof.
  split; [vm_compute; reflexivity |].
  split; [reflexivity |].
  vm_compute; reflexivity.
Qed.

(** [executeBangOperator] looks at the identity of its operand only: any
    pointer other than the three singletons, whatever it points to, gives
    [False]. *)
Lemma executeBangOperator_by_identity (m : VM) (v : Object) :
  sp m <> 0 -> index (stack m) (sp m - 1) = Some v ->
  executeBangOperator m =
    push (if decide (v = vm.True) then vm.False
          else if decide (v = vm.False \/ v = vm.Null) then vm.True
          else vm.False)
         (set_sp (sp m - 1) m).
Proof.
  intros Hsp Hv. unfold executeBangOperator, bind.
  rewrite (pop_ok m v) by done.
  destruct (decide (v = vm.True)); [reflexivity |].
  destruct (decide (v = vm.False \/ v = vm.Null)); reflexivity.
Qed.

(** On the singletons and on integers [OpBang] is the negation of
    truthiness, and two of them give the truthiness back. *)
Lemma executeBangOperator_negates (m : VM) (v : Object) :
  canonical_heap (heap m) ->
  0 < sp m <= StackSize -> sp m <= Z.of_nat (length (stack m)) ->
  index (stack m) (sp m - 1) = Some v ->
  singleton_or_integer (heap m) v ->
  executeBangOperator m =
    Ret tt (mkVM (heap m) (constants m) (instructions m) (globals m)
              (<[Z.to_nat (sp m - 1) :=
                   if isTruthy (heap m) v then vm.False else vm.True]> (stack m))
              (sp m)).
Proof.
  intros [rest Hheap] Hsp Hlen Hv Hcase.
  rewrite (executeBangOperator_by_identity m v) by (lia || done).
  rewrite push_ok by (simpl; lia). unfold set_sp, set_stack; simpl.
  replace (sp m - 1 + 1) with (sp m) by lia.
  do 2 f_equal. unfold isTruthy, deref. rewrite Hheap.
  destruct Hcase as [-> | [-> | [-> | (n & a & -> & Hn & Hint)]]]; try reflexivity.
  rewrite Hheap in Hint. rewrite Hint.
  unfold vm.True, vm.False, vm.Null in *.
  repeat case_decide; try reflexivity; exfalso;
    repeat match goal with
           | H : _ \/ _ |- _ => destruct H
           | H : Some _ = Some _ |- _ => injection H as H
           end; lia.
Qed.

Lemma bang_bang_truthiness (m : VM) (v : Object) :
  canonical_heap (heap m) ->
  0 < sp m <= StackSize -> sp m <= Z.of_nat (length (stack m)) ->
  index (stack m) (sp m - 1) = Some v ->
  singleton_or_integer (heap m) v ->
  (executeBangOperator ;; executeBangOperator) m =
    Ret tt (mkVM (heap m) (constants m) (instructions m) (globals m)
              (<[Z.to_nat (sp m - 1) :=
                   if isTruthy (heap m) v then vm.True else vm.False]> (stack m))
              (sp m)).
Proof.
  intros Hheap Hsp Hlen Hv Hcase. unfold bind.
  rewrite (executeBangOperator_negates m v) by done.
  set (w := if isTruthy (heap m) v then vm.False else vm.True).
  rewrite (executeBangOperator_negates _ w); simpl.
  - rewrite list_insert_insert_eq. do 2 f_equal.
    destruct Hheap as [rest Hheap]. subst w. unfold isTruthy at 1, deref.
    rewrite Hheap. destruct (isTruthy _ v); reflexivity.
  - exact Hheap.
  - lia.
  - rewrite length_insert. lia.
  - apply index_insert_eq. lia.
  - subst w. destruct (isTruthy (heap m) v); [right; left | left]; reflexivity.
Qed.

(** C6.  [OpBang] on the false Boolean that [1 == 2] leaves pushes [False],
    not [True]: [!(1 == 2);] evaluates to false. *)
Theorem bang_of_false_comparison :
  stackTop (Run op_of 3 (machine [1; 2] code_eq_1_2))
    = Some (Some 5%nat, Some (Boolean false)) /\
  lastPopped (Run op_of 5 (machine [1; 2] code_bang_eq_1_2))
    = Some (vm.False, Some (Boolean false)).
Proof.
  split; vm_compute; reflexivity.
Qed.

Section Driver.

Variable decode : Opcode -> option Op.

(** A turn without parser errors that goes on to the next line has written
    the result of [LastPopped] and a newline last, whether or not [Compile]
    or [Run] returned an error. *)
Lemma turn_prints_result (fuel : nat) (compileErr : option string)
    (byteCode : ByteCode) (s s' : repl.Session) :
  repl.turn decode fuel [] compileErr byteCode s = Some (repl.Next s') ->
  exists pre obj, repl.out s' = pre ++ [Inspect obj; repl.newline].
Proof.
  unfold repl.turn. simpl.
  assert (Hprint : forall out machine,
    repl.printResult out machine = repl.Next s' ->
    exists pre obj, repl.out s' = pre ++ [Inspect obj; repl.newline]).
  { intros out machine. unfold repl.printResult.
    destruct (LastPopped machine) as [result |]; [| discriminate].
    destruct (deref (heap machine) result) as [obj |]; [| discriminate].
    intros [= <-]. simpl. exists out, obj. unfold repl.WriteString.
    by rewrite <- app_assoc. }
  destruct (Run decode fuel _) as [[[] machine | err machine | msg] |];
    try discriminate; intros [= H]; eapply Hprint; exact H.
Qed.

End Driver.

(** C3.  On the line [-true], whose [Run] returns an error, the REPL writes
    the error message and then the value [LastPopped] finds in the failed
    machine, "true", and a newline.  On the line [1; x], whose [Compile]
    returns an error after the code of [1;] was emitted, it writes the error
    message and then "1" and a newline; when [Compile] fails with nothing
    emitted, the turn ends in a panic. *)
Theorem repl_prints_result_after_error :
  repl.written
    (repl.turn op_of 3 [] None (mkByteCode (concat code_minus_true) []) fresh_session)
    = Some ["error during execution: unsupported type for negation by minus: BOOLEAN";
            "true"; repl.newline] /\
  repl.written
    (repl.turn op_of 2 [] (Some "undefined variable: x")
       (mkByteCode (concat code_1_then_undefined) [Some 3%nat])
       (repl.mkSession [] (repl.globals fresh_session) (initial_heap ++ [Integer 1])))
    = Some ["error during compilation: undefined variable: x"; "1"; repl.newline] /\
  repl.turn op_of 0 [] (Some "undefined variable: x") (mkByteCode [] []) fresh_session
    = Some (repl.Crash nil_deref).
Proof.
  split; [vm_compute; reflexivity |].
  split; vm_compute; reflexivity.
Qed.


(** ** The general properties at concrete machines *)

(** [OpTrue] on a machine whose stack is full. *)
Lemma push_stack_overflow_witness :
  Run_loop op_of 1 0 (full (machine [] [Make0 OpTrue]))
    = Some (Fail "stack overflow" (full (machine [] [Make0 OpTrue]))).
Proof.
  destruct (push_stack_overflow op_of vm.True (full (machine [] [Make0 OpTrue])))
    as (_ & _ & _ & Hrun).
  - vm_compute. discriminate.
  - vm_compute. reflexivity.
  - apply (Hrun ltac:(vm_compute; discriminate) 0%nat 0 (byte_of OpTrue)).
    + vm_compute. reflexivity.
    + left. reflexivity.
Defined.

(** [OpPop] on the machine [New] builds, its stack empty. *)
Lemma pop_empty_witness :
  pop (machine [] [Make0 OpPop]) = Ret nil (machine [] [Make0 OpPop]) /\
  Run_body op_of 0 (machine [] [Make0 OpPop]) = Ret 0 (machine [] [Make0 OpPop]).
Proof.
  destruct (pop_empty op_of (machine [] [Make0 OpPop])) as [Hpop Hbody].
  - reflexivity.
  - split; [exact Hpop |].
    apply (Hbody 0 (byte_of OpPop)); vm_compute; reflexivity.
Defined.

(** A pop of [True] from a stack that holds just it. *)
Lemma LastPopped_after_pop_witness :
  exists v m',
    pop (loaded [vm.True] (machine [] [Make0 OpPop])) = Ret v m' /\
    LastPopped m' = Some v.
Proof.
  destruct (LastPopped_after_pop (loaded [vm.True] (machine [] [Make0 OpPop])))
    as (v & m' & _ & Hpop & Hlast & _).
  - vm_compute. split; [reflexivity | discriminate].
  - exists v, m'. split; [exact Hpop | exact Hlast].
Defined.

(** The byte 255, which is none of the opcodes. *)
Lemma unknown_opcode_ignored_witness :
  Run_body op_of 0 (machine [] [[Byte.xff]]) = Ret 0 (machine [] [[Byte.xff]]).
Proof.
  destruct (unknown_opcode_ignored op_of (machine [] [[Byte.xff]]) 0 Byte.xff)
    as [Hbody _].
  - vm_compute. reflexivity.
  - reflexivity.
  - exact Hbody.
Defined.

(** [OpJumpNotTruthy 10] at offset 0: [False] on top jumps (the body leaves
    [ip] at 9), the integer 0 on top does not (the body leaves [ip] at 2). *)
Lemma jump_not_truthy_witness :
  Run_body op_of 0 (loaded [vm.False] (machine [] [Make1 OpJumpNotTruthy 10]))
    = Ret 9 (set_sp 0 (loaded [vm.False] (machine [] [Make1 OpJumpNotTruthy 10]))) /\
  Run_body op_of 0 (loaded [Some 3%nat] (machine [0] [Make1 OpJumpNotTruthy 10]))
    = Ret 2 (set_sp 0 (loaded [Some 3%nat] (machine [0] [Make1 OpJumpNotTruthy 10]))).
Proof.
  split.
  - destruct (jump_not_truthy op_of
                (loaded [vm.False] (machine [] [Make1 OpJumpNotTruthy 10]))
                0 (byte_of OpJumpNotTruthy) Byte.x00 Byte.x0a vm.False)
      as [Hbody _].
    + vm_compute. reflexivity.
    + reflexivity.
    + split; vm_compute; reflexivity.
    + vm_compute. reflexivity.
    + vm_compute. reflexivity.
    + exact Hbody.
  - destruct (jump_not_truthy op_of
                (loaded [Some 3%nat] (machine [0] [Make1 OpJumpNotTruthy 10]))
                0 (byte_of OpJumpNotTruthy) Byte.x00 Byte.x0a (Some 3%nat))
      as [Hbody _].
    + vm_compute. reflexivity.
    + reflexivity.
    + split; vm_compute; reflexivity.
    + vm_compute. reflexivity.
    + vm_compute. reflexivity.
    + exact Hbody.
Defined.

(** [1 + 2] pushes a new [Integer 3]; [true + 1] is refused. *)
Lemma binary_operation_witness :
  executeBinaryOperation op_of (byte_of OpAdd)
    (loaded [Some 3%nat; Some 4%nat] (machine [1; 2] [Make0 OpAdd]))
    = Ret tt
        (mkVM (initial_heap ++ [Integer 1; Integer 2; Integer 3])
           (constants (machine [1; 2] [Make0 OpAdd]))
           (instructions (machine [1; 2] [Make0 OpAdd]))
           (globals (machine [1; 2] [Make0 OpAdd]))
           (<[0%nat := Some 5%nat]>
              (stack (loaded [Some 3%nat; Some 4%nat] (machine [1; 2] [Make0 OpAdd]))))
           1) /\
  executeBinaryOperation op_of (byte_of OpAdd)
    (loaded [vm.True; Some 3%nat] (machine [1] [Make0 OpAdd]))
    = Fail "unsupported types for binary operation: BOOLEAN and INTEGER"
        (set_sp 0 (loaded [vm.True; Some 3%nat] (machine [1] [Make0 OpAdd]))).
Proof.
  split.
  - pose proof (binary_operation op_of
                  (loaded [Some 3%nat; Some 4%nat] (machine [1; 2] [Make0 OpAdd]))
                  (byte_of OpAdd) OpAdd (Some 3%nat) (Some 4%nat)
                  (Integer 1) (Integer 2)) as H.
    cbv iota beta zeta in H.
    destruct H as [H _].
    + reflexivity.
    + left. reflexivity.
    + vm_compute. split; discriminate.
    + vm_compute. discriminate.
    + vm_compute. reflexivity.
    + vm_compute. reflexivity.
    + vm_compute. reflexivity.
    + vm_compute. reflexivity.
    + discriminate.
    + exact H.
  - pose proof (binary_operation op_of
                  (loaded [vm.True; Some 3%nat] (machine [1] [Make0 OpAdd]))
                  (byte_of OpAdd) OpAdd vm.True (Some 3%nat)
                  (Boolean true) (Integer 1)) as H.
    cbv iota beta zeta in H.
    destruct H as [H _].
    + reflexivity.
    + left. reflexivity.
    + vm_compute. split; discriminate.
    + vm_compute. discriminate.
    + vm_compute. reflexivity.
    + vm_compute. reflexivity.
    + vm_compute. reflexivity.
    + vm_compute. reflexivity.
    + exact H.
Defined.


(** ** What every run keeps *)

Section Frame.

Variable decode : Opcode -> option Op.

Lemma preserved_refl (m : VM) : preserved m m.
Proof.
  unfold preserved. repeat split; try done.
  - exists []. by rewrite app_nil_r.
  - lia.
  - lia.
Qed.

Lemma preserved_trans (m1 m2 m3 : VM) :
  preserved m1 m2 -> preserved m2 m3 -> preserved m1 m3.
Proof.
  intros (Hi & Hc & Hs & Hg & [e1 Hh] & Hsp) (Hi' & Hc' & Hs' & Hg' & [e2 Hh'] & Hsp').
  unfold preserved. repeat split; try congruence.
  - exists (e1 ++ e2). rewrite Hh', Hh. by rewrite app_assoc.
  - apply Hsp', Hsp. done.
  - apply Hsp', Hsp. done.
Qed.

Lemma returned_Ret {A : Type} (a : A) (m m' : VM) :
  returned (Ret a m) m' -> m' = m.
Proof. intros [[a' [= _ ->]] | [err [=]]]. reflexivity. Qed.

Lemma returned_Fail {A : Type} (err : string) (m m' : VM) :
  returned (@Fail A err m) m' -> m' = m.
Proof. intros [[a' [=]] | [err' [= _ ->]]]. reflexivity. Qed.

Lemma returned_Panic {A : Type} (msg : string) (m' : VM) :
  ~ returned (@Panic A msg) m'.
Proof. intros [[a' [=]] | [err' [=]]]. Qed.

Lemma keeps_ret {A : Type} (a : A) : keeps (ret a).
Proof. intros m m' ->%returned_Ret. apply preserved_refl. Qed.

Lemma keeps_fail {A : Type} (err : string) : keeps (@fail A err).
Proof. intros m m' ->%returned_Fail. apply preserved_refl. Qed.

Lemma keeps_panic {A : Type} (msg : string) : keeps (@panic A msg).
Proof. intros m m' []%returned_Panic. Qed.

Lemma keeps_get {A : Type} (f : VM -> A) : keeps (get f).
Proof. intros m m' ->%returned_Ret. apply preserved_refl. Qed.

Lemma keeps_orPanic {A : Type} (msg : string) (o : option A) :
  keeps (orPanic msg o).
Proof. destruct o; [apply keeps_ret | apply keeps_panic]. Qed.

Lemma keeps_bind {A B : Type} (c : M A) (k : A -> M B) :
  keeps c -> (forall a, keeps (k a)) -> keeps (bind c k).
Proof.
  intros Hc Hk m m' H. unfold bind in H.
  destruct (c m) as [a m1 | err m1 | msg] eqn:E.
  - apply (preserved_trans m m1 m').
    + apply Hc. rewrite E. left. by exists a.
    + by apply (Hk a).
  - apply returned_Fail in H as ->. apply Hc. rewrite E. right. by exists err.
  - by apply returned_Panic in H.
Qed.

Lemma keeps_push (o : Object) : keeps (push o).
Proof.
  intros m m'. unfold push.
  destruct (decide (sp m >= StackSize)).
  - intros ->%returned_Fail. apply preserved_refl.
  - destruct (decide (0 <= sp m < Z.of_nat (length (stack m)))).
    + intros ->%returned_Ret. unfold preserved; simpl.
      repeat split; try done; try lia.
      * by rewrite length_insert.
      * exists []. by rewrite app_nil_r.
    + by intros []%returned_Panic.
Qed.

Lemma keeps_pop : keeps pop.
Proof.
  intros m m'. unfold pop.
  destruct (decide (sp m = 0)).
  - intros ->%returned_Ret. apply preserved_refl.
  - destruct (index (stack m) (sp m - 1)).
    + intros ->%returned_Ret. unfold preserved; simpl.
      repeat split; try done; try lia.
      exists []. by rewrite app_nil_r.
    + by intros []%returned_Panic.
Qed.

Lemma keeps_new (s : Struct) : keeps (new s).
Proof.
  intros m m' ->%returned_Ret. unfold preserved; simpl.
  repeat split; try done; try lia. by exists [s].
Qed.

Lemma keeps_store_global (idx ip : Z) (o : Object) :
  keeps (g <- get globals ;;
         if decide (0 <= idx < Z.of_nat (length g)) then
           modify (set_globals (<[Z.to_nat idx := o]> g)) ;;
           ret (ip + 2)
         else panic out_of_range).
Proof.
  intros m m'. unfold bind, get, modify, ret, panic.
  destruct (decide (0 <= idx < Z.of_nat (length (globals m)))).
  - intros ->%returned_Ret. unfold preserved; simpl.
    repeat split; try done; try lia.
    + by rewrite length_insert.
    + exists []. by rewrite app_nil_r.
  - by intros []%returned_Panic.
Qed.

End Frame.

Ltac keeping :=
  repeat first
    [ apply keeps_ret | apply keeps_fail | apply keeps_panic | apply keeps_get
    | apply keeps_orPanic | apply keeps_push | apply keeps_pop | apply keeps_new
    | apply keeps_store_global
    | apply keeps_bind; [| intros ?]
    | match goal with
      | |- keeps (if ?c then _ else _) => destruct c
      | |- keeps (match ?x with _ => _ end) => destruct x
      end ].

Section RunFrame.

Variable decode : Opcode -> option Op.

Lemma keeps_typeOf (o : Object) : keeps (typeOf o).
Proof. unfold typeOf. keeping. Qed.

Lemma keeps_integerValue (o : Object) : keeps (integerValue o).
Proof. unfold integerValue. keeping. Qed.

Lemma keeps_readOperand (ip : Z) : keeps (readOperand ip).
Proof. unfold readOperand. keeping. Qed.

Lemma keeps_executeBangOperator : keeps executeBangOperator.
Proof. unfold executeBangOperator. keeping. Qed.

Lemma keeps_executeMinusOperator : keeps executeMinusOperator.
Proof.
  unfold executeMinusOperator.
  apply keeps_bind; [apply keeps_pop | intros operand].
  apply keeps_bind; [apply keeps_typeOf | intros t].
  destruct (decide (t <> INTEGER_OBJ)); [apply keeps_fail |].
  apply keeps_bind; [apply keeps_integerValue | intros value]. keeping.
Qed.

Lemma keeps_executeBinaryIntegerOperation (opcode : Opcode) (left right : Object) :
  keeps (executeBinaryIntegerOperation decode opcode left right).
Proof.
  unfold executeBinaryIntegerOperation.
  apply keeps_bind; [apply keeps_integerValue | intros leftValue].
  apply keeps_bind; [apply keeps_integerValue | intros rightValue].
  apply keeps_bind; [| intros result; keeping].
  destruct (decode opcode) as [[] |]; keeping.
Qed.

Lemma keeps_executeBinaryOperation (opcode : Opcode) :
  keeps (executeBinaryOperation decode opcode).
Proof.
  unfold executeBinaryOperation.
  apply keeps_bind; [apply keeps_pop | intros right].
  apply keeps_bind; [apply keeps_pop | intros left].
  apply keeps_bind; [apply keeps_typeOf | intros rightType].
  apply keeps_bind; [apply keeps_typeOf | intros leftType].
  destruct (decide _); [apply keeps_executeBinaryIntegerOperation | apply keeps_fail].
Qed.

Lemma keeps_executeIntegerComparison (opcode : Opcode) (left right : Object) :
  keeps (executeIntegerComparison decode opcode left right).
Proof.
  unfold executeIntegerComparison.
  apply keeps_bind; [apply keeps_integerValue | intros leftValue].
  apply keeps_bind; [apply keeps_integerValue | intros rightValue].
  apply keeps_bind; [| intros result; keeping].
  destruct (decode opcode) as [[] |]; keeping.
Qed.

Lemma keeps_executeComparison (opcode : Opcode) :
  keeps (executeComparison decode opcode).
Proof.
  unfold executeComparison.
  apply keeps_bind; [apply keeps_pop | intros right].
  apply keeps_bind; [apply keeps_pop | intros left].
  apply keeps_bind; [apply keeps_typeOf | intros rightType].
  apply keeps_bind; [apply keeps_typeOf | intros leftType].
  destruct (decide _); [apply keeps_executeIntegerComparison |].
  destruct (decode opcode) as [[] |]; keeping.
Qed.

Lemma keeps_Run_switch (ip : Z) (opcode : Opcode) :
  keeps (Run_switch decode ip opcode).
Proof.
  unfold Run_switch.
  destruct (decode opcode) as [[] |];
    try (apply keeps_bind;
         [first [ apply keeps_executeBangOperator
                | apply keeps_executeMinusOperator
                | apply keeps_executeBinaryOperation
                | apply keeps_executeComparison ]
         | intros ?; apply keeps_ret]).
  all: try (apply keeps_bind; [apply keeps_readOperand | intros ?]).
  all: keeping.
Qed.

Lemma keeps_Run_body (ip : Z) : keeps (Run_body decode ip).
Proof.
  unfold Run_body.
  apply keeps_bind; [apply keeps_get | intros ins].
  apply keeps_bind; [apply keeps_orPanic | intros opcode].
  apply keeps_Run_switch.
Qed.

Lemma Run_loop_preserved (fuel : nat) (ip : Z) (m m' : VM) :
  ended (Run_loop decode fuel ip m) m' -> preserved m m'.
Proof.
  revert ip m. induction fuel as [| fuel IH]; intros ip m (r & Hr & Hret); simpl in Hr.
  - destruct (decide _); [discriminate |].
    injection Hr as <-. apply returned_Ret in Hret as ->. apply preserved_refl.
  - destruct (decide _).
    + destruct (Run_body decode ip m) as [ip' m1 | err m1 | msg] eqn:E.
      * apply (preserved_trans m m1 m').
        -- apply (keeps_Run_body ip). rewrite E. left. by exists ip'.
        -- apply (IH (ip' + 1) m1). by exists r.
      * injection Hr as <-. apply returned_Fail in Hret as ->.
        apply (keeps_Run_body ip). rewrite E. right. by exists err.
      * injection Hr as <-. by apply returned_Panic in Hret.
    + injection Hr as <-. apply returned_Ret in Hret as ->. apply preserved_refl.
Qed.

End RunFrame.

(** Goals about a concrete machine, settled by evaluation. *)
Ltac evaluated :=
  vm_compute; repeat split; first [reflexivity | discriminate | lia].

Ltac run_ended :=
  eexists; split; [vm_compute; reflexivity | left; eexists; reflexivity].

Section RunInvariants.

Variable decode : Opcode -> option Op.

(** X1.  The stack pointer stays within the stack: from a machine with
    [0 <= sp <= StackSize], whenever [Run] ends, with or without an error,
    [sp] is again between 0 and [StackSize], and the stack has the length it
    had. *)
Theorem Run_keeps_stack_bounds (fuel : nat) (ip : Z) (m m' : VM) :
  0 <= sp m <= StackSize ->
  ended (Run_loop decode fuel ip m) m' ->
  0 <= sp m' <= StackSize /\ length (stack m') = length (stack m).
Proof.
  intros Hsp (_ & _ & Hs & _ & _ & Hb)%Run_loop_preserved. split; [exact (Hb Hsp) | exact Hs].
Qed.

(** X2.  [Run] never writes to the code or to the constant pool, never
    resizes the globals array, and never changes a struct that exists: every
    pointer that pointed to a struct before the run points to the same struct
    after it. *)
Theorem Run_keeps_code_and_objects (fuel : nat) (ip : Z) (m m' : VM) :
  ended (Run_loop decode fuel ip m) m' ->
  instructions m' = instructions m /\
  constants m' = constants m /\
  length (globals m') = length (globals m) /\
  forall o s, deref (heap m) o = Some s -> deref (heap m') o = Some s.
Proof.
  intros (Hi & Hc & _ & Hg & [ext Hh] & _)%Run_loop_preserved.
  repeat split; try done.
  intros [a |] s; simpl; [| done].
  rewrite Hh. intros H. rewrite lookup_app_l; [exact H |].
  by apply lookup_lt_Some in H.
Qed.

End RunInvariants.

Lemma Run_keeps_stack_bounds_witness :
  exists m',
    ended (Run_loop op_of 4 0 sum_machine) m' /\
    0 <= sp m' <= StackSize /\ length (stack m') = 2048%nat.
Proof.
  assert (E : exists m', ended (Run_loop op_of 4 0 sum_machine) m').
  { eexists. run_ended. }
  destruct E as [m' E]. exists m'. split; [exact E |].
  apply (Run_keeps_stack_bounds op_of 4 0 sum_machine m'); [evaluated | exact E].
Defined.

Lemma Run_keeps_code_and_objects_witness :
  exists m',
    ended (Run_loop op_of 4 0 sum_machine) m' /\
    length (globals m') = 4%nat /\
    deref (heap m') (Some 3%nat) = Some (Integer 1).
Proof.
  assert (E : exists m', ended (Run_loop op_of 4 0 sum_machine) m').
  { eexists. run_ended. }
  destruct E as [m' E]. exists m'. split; [exact E |].
  destruct (Run_keeps_code_and_objects op_of 4 0 sum_machine m' E)
    as (_ & _ & Hg & Hobj).
  split; [exact Hg |]. apply Hobj. reflexivity.
Defined.


(** ** More on the handlers *)

Section Handlers.

Variable decode : Opcode -> option Op.

Lemma executeBinaryOperation_operands (m : VM) (opcode : Opcode)
    (left right : Object) (l r : Struct) :
  2 <= sp m ->
  index (stack m) (sp m - 1) = Some right ->
  index (stack m) (sp m - 2) = Some left ->
  deref (heap m) left = Some l ->
  deref (heap m) right = Some r ->
  executeBinaryOperation decode opcode m =
    (if decide (Type_ r = INTEGER_OBJ /\ Type_ l = INTEGER_OBJ) then
       executeBinaryIntegerOperation decode opcode left right
     else
       fail ("unsupported types for binary operation: "
               +:+ Type_ l +:+ " and " +:+ Type_ r)) (set_sp (sp m - 2) m).
Proof.
  intros Hsp Hr Hl Hdl Hdr. unfold executeBinaryOperation.
  rewrite (pop_pop m left right unit
             (fun left right =>
                rightType <- typeOf right ;;
                leftType <- typeOf left ;;
                if decide (rightType = INTEGER_OBJ /\ leftType = INTEGER_OBJ) then
                  executeBinaryIntegerOperation decode opcode left right
                else
                  fail ("unsupported types for binary operation: "
                          +:+ leftType +:+ " and " +:+ rightType)))
    by (lia || done).
  unfold bind at 1. rewrite (typeOf_ok _ _ r) by exact Hdr.
  unfold bind at 1. rewrite (typeOf_ok _ _ l) by exact Hdl. reflexivity.
Qed.

Lemma executeComparison_operands (m : VM) (opcode : Opcode)
    (left right : Object) (l r : Struct) :
  2 <= sp m ->
  index (stack m) (sp m - 1) = Some right ->
  index (stack m) (sp m - 2) = Some left ->
  deref (heap m) left = Some l ->
  deref (heap m) right = Some r ->
  executeComparison decode opcode m =
    (if decide (Type_ r = INTEGER_OBJ /\ Type_ l = INTEGER_OBJ) then
       executeIntegerComparison decode opcode left right
     else
       match decode opcode with
       | Some OpEqual =>
           o <- new (Boolean (bool_decide (left = right))) ;; push o
       | Some OpNotEqual =>
           o <- new (Boolean (bool_decide (left <> right))) ;; push o
       | _ =>
           fail ("unsupported types for binary operation: "
                   +:+ Type_ l +:+ " and " +:+ Type_ r)
       end) (set_sp (sp m - 2) m).
Proof.
  intros Hsp Hr Hl Hdl Hdr. unfold executeComparison.
  rewrite (pop_pop m left right unit
             (fun left right =>
                rightType <- typeOf right ;;
                leftType <- typeOf left ;;
                if decide (rightType = INTEGER_OBJ /\ leftType = INTEGER_OBJ) then
                  executeIntegerComparison decode opcode left right
                else
                  match decode opcode with
                  | Some OpEqual =>
                      o <- new (Boolean (bool_decide (left = right))) ;; push o
                  | Some OpNotEqual =>
                      o <- new (Boolean (bool_decide (left <> right))) ;; push o
                  | _ =>
                      fail ("unsupported types for binary operation: "
                              +:+ leftType +:+ " and " +:+ rightType)
                  end))
    by (lia || done).
  unfold bind at 1. rewrite (typeOf_ok _ _ r) by exact Hdr.
  unfold bind at 1. rewrite (typeOf_ok _ _ l) by exact Hdl. reflexivity.
Qed.

(** Pushing a newly allocated struct in place of the operands that were
    popped down to [sp']. *)
Lemma new_push (m : VM) (s : Struct) (sp' : Z) :
  0 <= sp' < StackSize -> sp' < Z.of_nat (length (stack m)) ->
  (o <- new s ;; push o) (set_sp sp' m) =
    Ret tt (mkVM (heap m ++ [s]) (constants m) (instructions m) (globals m)
              (<[Z.to_nat sp' := Some (length (heap m))]> (stack m)) (sp' + 1)).
Proof.
  intros H1 H2. unfold bind, new. simpl. rewrite push_ok by (simpl; lia).
  reflexivity.
Qed.

(** X3.  A push followed by a pop gives the value back and restores [sp];
    the slot keeps the value.  After a push, [StackTop] is the value
    pushed. *)
Theorem push_then_pop (o : Object) (m : VM) :
  0 <= sp m < StackSize -> sp m < Z.of_nat (length (stack m)) ->
  (push o ;; pop) m =
    Ret o (mkVM (heap m) (constants m) (instructions m) (globals m)
             (<[Z.to_nat (sp m) := o]> (stack m)) (sp m)) /\
  (push o ;; get StackTop) m =
    Ret (Some o) (mkVM (heap m) (constants m) (instructions m) (globals m)
                    (<[Z.to_nat (sp m) := o]> (stack m)) (sp m + 1)).
Proof.
  intros Hsp Hlen.
  assert (Htop : index (<[Z.to_nat (sp m) := o]> (stack m)) (sp m + 1 - 1) = Some o).
  { replace (sp m + 1 - 1) with (sp m) by lia. apply index_insert_eq. lia. }
  split; unfold bind; rewrite push_ok by lia.
  - rewrite (pop_ok _ o); simpl; [| lia | exact Htop].
    unfold set_sp; simpl. do 2 f_equal. lia.
  - unfold get, StackTop; simpl.
    destruct (decide (sp m + 1 = 0)); [lia |]. by rewrite Htop.
Qed.

(** X4.  [OpMinus] on an integer replaces it by a new [Integer] holding the
    64-bit negation, which is the negation itself except for the least
    integer, which is given back; on a Boolean or Null it returns the error
    naming the type, with the operand already popped. *)
Theorem minus_operator (m : VM) (v : Object) (s : Struct) :
  0 < sp m <= StackSize -> sp m <= Z.of_nat (length (stack m)) ->
  index (stack m) (sp m - 1) = Some v ->
  deref (heap m) v = Some s ->
  match s with
  | Integer a =>
      executeMinusOperator m =
        Ret tt (mkVM (heap m ++ [Integer (int64 (- a))])
                  (constants m) (instructions m) (globals m)
                  (<[Z.to_nat (sp m - 1) := Some (length (heap m))]> (stack m))
                  (sp m)) /\
      (- 2 ^ 63 < a < 2 ^ 63 -> int64 (- a) = - a) /\
      (a = - 2 ^ 63 -> int64 (- a) = a)
  | _ =>
      executeMinusOperator m =
        Fail ("unsupported type for negation by minus: " +:+ Type_ s)
             (set_sp (sp m - 1) m)
  end.
Proof.
  intros Hsp Hlen Hv Hd.
  assert (Hexec : executeMinusOperator m =
    (if decide (Type_ s <> INTEGER_OBJ) then
       fail ("unsupported type for negation by minus: " +:+ Type_ s)
     else
       value <- integerValue v ;;
       o <- new (Integer (int64 (- value))) ;;
       push o) (set_sp (sp m - 1) m)).
  { unfold executeMinusOperator. unfold bind at 1.
    rewrite (pop_ok m v) by (lia || done).
    unfold bind at 1. rewrite (typeOf_ok _ _ s) by exact Hd. reflexivity. }
  rewrite Hexec. destruct s as [a | b |].
  - destruct (decide _) as [Hne | _]; [by exfalso; apply Hne |].
    split; [| split].
    + unfold bind at 1. rewrite (integerValue_ok _ _ a) by exact Hd.
      rewrite new_push by lia. do 2 f_equal. lia.
    + intros Ha. apply int64_exact. lia.
    + intros ->. reflexivity.
  - destruct (decide _) as [_ | Hno]; [reflexivity | exfalso; apply Hno; discriminate].
  - destruct (decide _) as [_ | Hno]; [reflexivity | exfalso; apply Hno; discriminate].
Qed.

End Handlers.

Section ComparisonHandlers.

Variable decode : Opcode -> option Op.

Lemma bool_decide_Zeq (a b : Z) : bool_decide (a = b) = (a =? b).
Proof.
  destruct (Z.eqb_spec a b).
  - by apply bool_decide_eq_true_2.
  - by apply bool_decide_eq_false_2.
Qed.

Lemma bool_decide_Zne (a b : Z) : bool_decide (a <> b) = negb (a =? b).
Proof.
  destruct (Z.eqb_spec a b).
  - apply bool_decide_eq_false_2. tauto.
  - by apply bool_decide_eq_true_2.
Qed.

Lemma bool_decide_Zgt (a b : Z) : bool_decide (a > b) = (b <? a).
Proof.
  destruct (Z.ltb_spec b a).
  - apply bool_decide_eq_true_2. lia.
  - apply bool_decide_eq_false_2. lia.
Qed.

(** X5.  A comparison of two integers pops both and pushes a new Boolean
    that holds [left == right], [left != right] or [left > right] on the
    integer values. *)
Theorem integer_comparison (m : VM) (opcode : Opcode) (op : Op)
    (left right : Object) (a b : Z) :
  decode opcode = Some op -> is_comparison op ->
  2 <= sp m <= StackSize -> sp m <= Z.of_nat (length (stack m)) ->
  index (stack m) (sp m - 1) = Some right ->
  index (stack m) (sp m - 2) = Some left ->
  deref (heap m) left = Some (Integer a) ->
  deref (heap m) right = Some (Integer b) ->
  executeComparison decode opcode m =
    Ret tt (mkVM (heap m ++ [Boolean (compare op a b)])
              (constants m) (instructions m) (globals m)
              (<[Z.to_nat (sp m - 2) := Some (length (heap m))]> (stack m))
              (sp m - 1)).
Proof.
  intros Hop Hcmp Hsp Hlen Hr Hl Hdl Hdr.
  rewrite (executeComparison_operands decode m opcode left right
             (Integer a) (Integer b)) by (lia || done).
  destruct (decide _) as [_ | Hno]; [| exfalso; apply Hno; done].
  unfold executeIntegerComparison.
  unfold bind at 1. rewrite (integerValue_ok _ _ a) by exact Hdl.
  unfold bind at 1. rewrite (integerValue_ok _ _ b) by exact Hdr.
  unfold bind at 1. rewrite Hop.
  destruct Hcmp as [-> | [-> | ->]]; unfold ret;
    rewrite new_push by lia; unfold compare;
    rewrite ?bool_decide_Zeq, ?bool_decide_Zne, ?bool_decide_Zgt;
    do 2 f_equal; lia.
Qed.

(** X6.  When one of the two operands is not an integer, [OpEqual] and
    [OpNotEqual] compare the two pointers, whatever they point to, and push a
    new Boolean; [OpGreaterThan] returns the error naming the two types, with
    both operands popped. *)
Theorem identity_comparison (m : VM) (opcode : Opcode) (op : Op)
    (left right : Object) (l r : Struct) :
  decode opcode = Some op -> is_comparison op ->
  2 <= sp m <= StackSize -> sp m <= Z.of_nat (length (stack m)) ->
  index (stack m) (sp m - 1) = Some right ->
  index (stack m) (sp m - 2) = Some left ->
  deref (heap m) left = Some l ->
  deref (heap m) right = Some r ->
  ~ (exists a b, l = Integer a /\ r = Integer b) ->
  let pushed (b : bool) :=
    mkVM (heap m ++ [Boolean b]) (constants m) (instructions m) (globals m)
      (<[Z.to_nat (sp m - 2) := Some (length (heap m))]> (stack m))
      (sp m - 1) in
  executeComparison decode opcode m =
    match op with
    | OpGreaterThan =>
        Fail ("unsupported types for binary operation: "
                +:+ Type_ l +:+ " and " +:+ Type_ r)
             (set_sp (sp m - 2) m)
    | OpNotEqual => Ret tt (pushed (negb (bool_decide (left = right))))
    | _ => Ret tt (pushed (bool_decide (left = right)))
    end.
Proof.
  intros Hop Hcmp Hsp Hlen Hr Hl Hdl Hdr Hnot pushed. subst pushed.
  rewrite (executeComparison_operands decode m opcode left right l r)
    by (lia || done).
  destruct (decide _) as [[Hr' Hl'] | _].
  { exfalso. apply Hnot.
    apply Type_INTEGER in Hr' as [b ->]. apply Type_INTEGER in Hl' as [a ->].
    by exists a, b. }
  rewrite Hop. destruct Hcmp as [-> | [-> | ->]]; [| | reflexivity].
  - rewrite new_push by lia. do 2 f_equal. lia.
  - rewrite new_push by lia. simpl.
    replace (bool_decide (left <> right)) with (negb (bool_decide (left = right))).
    + do 2 f_equal. lia.
    + destruct (decide (left = right)) as [He | He].
      * rewrite (bool_decide_eq_true_2 _ He). symmetry.
        apply bool_decide_eq_false_2. tauto.
      * rewrite (bool_decide_eq_false_2 _ He). symmetry.
        by apply bool_decide_eq_true_2.
Qed.

(** X7.  With fewer than two values on the stack the binary handlers do not
    return an error: [pop] hands them [nil], and the call of [Type] on it
    panics.  So does [OpMinus] on an empty stack. *)
Theorem operators_panic_on_underflow (m : VM) (opcode : Opcode) :
  sp m = 0 \/ (sp m = 1 /\ (0 < length (stack m))%nat) ->
  executeBinaryOperation decode opcode m = Panic nil_deref /\
  executeComparison decode opcode m = Panic nil_deref /\
  (sp m = 0 -> executeMinusOperator m = Panic nil_deref).
Proof.
  intros Hcase.
  assert (Hpop0 : forall m0, sp m0 = 0 -> pop m0 = Ret nil m0).
  { intros m0 H0. unfold pop. destruct (decide (sp m0 = 0)); [done | contradiction]. }
  assert (Hnil : forall m0, typeOf nil m0 = Panic nil_deref) by reflexivity.
  split; [| split].
  - unfold executeBinaryOperation. destruct Hcase as [H0 | [H1 Hlen]].
    + unfold bind. rewrite (Hpop0 m H0), (Hpop0 m H0), Hnil. reflexivity.
    + destruct (lookup_lt_is_Some_2 (stack m) 0%nat Hlen) as [right Hright].
      unfold bind at 1. rewrite (pop_ok m right); [| lia |].
      * unfold bind at 1. rewrite Hpop0 by (simpl; lia).
        unfold bind at 1. unfold typeOf at 1, bind at 1, get, orPanic. simpl.
        destruct (deref (heap m) right); [| reflexivity].
        simpl. unfold bind. rewrite Hnil. reflexivity.
      * rewrite H1. exact Hright.
  - unfold executeComparison. destruct Hcase as [H0 | [H1 Hlen]].
    + unfold bind. rewrite (Hpop0 m H0), (Hpop0 m H0), Hnil. reflexivity.
    + destruct (lookup_lt_is_Some_2 (stack m) 0%nat Hlen) as [right Hright].
      unfold bind at 1. rewrite (pop_ok m right); [| lia |].
      * unfold bind at 1. rewrite Hpop0 by (simpl; lia).
        unfold bind at 1. unfold typeOf at 1, bind at 1, get, orPanic. simpl.
        destruct (deref (heap m) right); [| reflexivity].
        simpl. unfold bind. rewrite Hnil. reflexivity.
      * rewrite H1. exact Hright.
  - intros H0. unfold executeMinusOperator, bind. rewrite (Hpop0 m H0), Hnil.
    reflexivity.
Qed.

(** X8.  [OpBang] on an empty stack does not fail either: the [nil] that
    [pop] hands it is none of the singletons, so [False] is pushed and the
    stack grows by one. *)
Theorem bang_on_empty_stack (m : VM) :
  sp m = 0 -> (0 < length (stack m))%nat ->
  executeBangOperator m =
    Ret tt (mkVM (heap m) (constants m) (instructions m) (globals m)
              (<[0%nat := vm.False]> (stack m)) 1).
Proof.
  intros H0 Hlen. unfold executeBangOperator, bind, pop.
  destruct (decide (sp m = 0)); [| contradiction].
  destruct (decide (nil = vm.True)); [discriminate |].
  destruct (decide (nil = vm.False \/ nil = vm.Null)) as [[H | H] |];
    [discriminate | discriminate |].
  rewrite push_ok by (unfold StackSize; lia).
  unfold set_sp, set_stack; simpl. rewrite H0. reflexivity.
Qed.

(** X9.  A division of an integer by the integer zero is no error of the
    machine: the handler, and with it [Run], panics. *)
Theorem division_by_zero_panics (m : VM) (opcode : Opcode)
    (left right : Object) (a : Z) :
  decode opcode = Some OpDiv ->
  2 <= sp m ->
  index (stack m) (sp m - 1) = Some right ->
  index (stack m) (sp m - 2) = Some left ->
  deref (heap m) left = Some (Integer a) ->
  deref (heap m) right = Some (Integer 0) ->
  executeBinaryOperation decode opcode m = Panic div_by_zero /\
  forall fuel ip,
    index (instructions m) ip = Some opcode ->
    Run_loop decode (S fuel) ip m = Some (Panic div_by_zero).
Proof.
  intros Hop Hsp Hr Hl Hdl Hdr.
  assert (Hexec : executeBinaryOperation decode opcode m = Panic div_by_zero).
  { rewrite (executeBinaryOperation_operands decode m opcode left right
               (Integer a) (Integer 0)) by (lia || done).
    destruct (decide _) as [_ | Hno]; [| exfalso; apply Hno; done].
    unfold executeBinaryIntegerOperation.
    unfold bind at 1. rewrite (integerValue_ok _ _ a) by exact Hdl.
    unfold bind at 1. rewrite (integerValue_ok _ _ 0) by exact Hdr.
    unfold bind at 1. rewrite Hop. reflexivity. }
  split; [exact Hexec |].
  intros fuel ip Hfetch.
  rewrite (Run_loop_unfold _ _ _ _ _ Hfetch), (Run_body_fetch _ _ _ _ Hfetch).
  unfold Run_switch. rewrite Hop. unfold bind. by rewrite Hexec.
Qed.

End ComparisonHandlers.


(** ** More on the dispatch loop *)

Section Instructions.

Variable decode : Opcode -> option Op.

Lemma u16_bounds (hi lo : Byte.byte) : 0 <= u16 hi lo < 65536.
Proof.
  unfold u16, byteval.
  pose proof (Byte.to_N_bounded hi). pose proof (Byte.to_N_bounded lo). lia.
Qed.

Lemma Run_loop_Ret (fuel : nat) (ip ip' : Z) (m m' : VM) (opcode : Opcode) :
  index (instructions m) ip = Some opcode ->
  Run_switch decode ip opcode m = Ret ip' m' ->
  Run_loop decode (S fuel) ip m = Run_loop decode fuel (ip' + 1) m'.
Proof.
  intros Hfetch Hswitch.
  by rewrite (Run_loop_unfold _ _ _ _ _ Hfetch), (Run_body_fetch _ _ _ _ Hfetch), Hswitch.
Qed.

Lemma Run_loop_Panic (fuel : nat) (ip : Z) (m : VM) (opcode : Opcode) (msg : string) :
  index (instructions m) ip = Some opcode ->
  Run_switch decode ip opcode m = Panic msg ->
  Run_loop decode (S fuel) ip m = Some (Panic msg).
Proof.
  intros Hfetch Hswitch.
  by rewrite (Run_loop_unfold _ _ _ _ _ Hfetch), (Run_body_fetch _ _ _ _ Hfetch), Hswitch.
Qed.

Lemma SetGlobal_step (m : VM) (ip : Z) (opcode : Opcode) (hi lo : Byte.byte)
    (v : Object) :
  decode opcode = Some OpSetGlobal -> operand_at m ip hi lo ->
  sp m <> 0 -> index (stack m) (sp m - 1) = Some v ->
  u16 hi lo < Z.of_nat (length (globals m)) ->
  Run_switch decode ip opcode m =
    Ret (ip + 2)
        (set_globals (<[Z.to_nat (u16 hi lo) := v]> (globals m))
           (set_sp (sp m - 1) m)).
Proof.
  intros Hop Hoperand Hsp Hv Hidx. unfold Run_switch. rewrite Hop.
  unfold bind at 1. rewrite (readOperand_ok _ _ _ _ Hoperand).
  unfold bind at 1. rewrite (pop_ok m v) by done.
  unfold bind at 1, get; simpl.
  pose proof (u16_bounds hi lo).
  destruct (decide _); [reflexivity | lia].
Qed.

Lemma GetGlobal_step (m : VM) (ip : Z) (opcode : Opcode) (hi lo : Byte.byte)
    (o : Object) :
  decode opcode = Some OpGetGlobal -> operand_at m ip hi lo ->
  0 <= sp m < StackSize -> sp m < Z.of_nat (length (stack m)) ->
  index (globals m) (u16 hi lo) = Some o ->
  Run_switch decode ip opcode m =
    Ret (ip + 2)
        (set_sp (sp m + 1) (set_stack (<[Z.to_nat (sp m) := o]> (stack m)) m)).
Proof.
  intros Hop Hoperand Hsp Hlen Ho. unfold Run_switch. rewrite Hop.
  unfold bind at 1. rewrite (readOperand_ok _ _ _ _ Hoperand).
  unfold bind at 1, get. unfold bind at 1, orPanic. rewrite Ho. unfold ret.
  unfold bind. by rewrite push_ok.
Qed.

(** X10.  A global that is set can be read back: [OpSetGlobal i] followed by
    [OpGetGlobal i] leaves the value in slot [i] of the globals and again on
    top of the stack; no other global and no slot of the stack changes. *)
Theorem set_then_get_global (m : VM) (ip : Z) (opSet opGet : Opcode)
    (hi lo : Byte.byte) (v : Object) :
  index (instructions m) ip = Some opSet -> decode opSet = Some OpSetGlobal ->
  operand_at m ip hi lo ->
  index (instructions m) (ip + 3) = Some opGet -> decode opGet = Some OpGetGlobal ->
  operand_at m (ip + 3) hi lo ->
  0 < sp m <= StackSize -> sp m <= Z.of_nat (length (stack m)) ->
  index (stack m) (sp m - 1) = Some v ->
  u16 hi lo < Z.of_nat (length (globals m)) ->
  forall fuel,
    Run_loop decode (S (S fuel)) ip m =
    Run_loop decode fuel (ip + 6)
      (mkVM (heap m) (constants m) (instructions m)
         (<[Z.to_nat (u16 hi lo) := v]> (globals m)) (stack m) (sp m)).
Proof.
  intros Hset Hops Hoperand Hget Hopg Hoperand' Hsp Hlen Hv Hidx fuel.
  pose proof (u16_bounds hi lo) as Hu.
  rewrite (Run_loop_Ret _ ip _ m _ opSet Hset
             (SetGlobal_step m ip opSet hi lo v Hops Hoperand ltac:(lia) Hv Hidx)).
  replace (ip + 2 + 1) with (ip + 3) by lia.
  set (m1 := set_globals (<[Z.to_nat (u16 hi lo) := v]> (globals m))
               (set_sp (sp m - 1) m)).
  rewrite (Run_loop_Ret fuel (ip + 3) (ip + 3 + 2) m1
             (mkVM (heap m) (constants m) (instructions m)
                (<[Z.to_nat (u16 hi lo) := v]> (globals m)) (stack m) (sp m))
             opGet (Hget : index (instructions m1) (ip + 3) = Some opGet)).
  - f_equal. lia.
  - rewrite (GetGlobal_step m1 (ip + 3) opGet hi lo v); simpl;
      [| done | done | lia | lia | apply index_insert_eq; lia].
    unfold set_sp, set_stack, set_globals; simpl. do 2 f_equal; [| lia].
    apply list_insert_id.
    apply index_Some in Hv as [_ Hv].
    by replace (Z.to_nat (sp m - 1 + 1 - 1)) with (Z.to_nat (sp m - 1)) by lia.
Qed.

(** X11.  The operand of [OpGetGlobal] has 16 bits, so with a globals array
    of [GlobalsSize] slots the read is never out of range: the value of the
    slot, [nil] for a global never set, is pushed. *)
Theorem get_global_in_range (m : VM) (ip : Z) (opcode : Opcode)
    (hi lo : Byte.byte) :
  index (instructions m) ip = Some opcode -> decode opcode = Some OpGetGlobal ->
  operand_at m ip hi lo ->
  Z.of_nat (length (globals m)) = GlobalsSize ->
  0 <= sp m < StackSize -> sp m < Z.of_nat (length (stack m)) ->
  exists o,
    index (globals m) (u16 hi lo) = Some o /\
    Run_body decode ip m =
      Ret (ip + 2)
          (mkVM (heap m) (constants m) (instructions m) (globals m)
             (<[Z.to_nat (sp m) := o]> (stack m)) (sp m + 1)).
Proof.
  intros Hfetch Hop Hoperand Hg Hsp Hlen.
  pose proof (u16_bounds hi lo) as Hu.
  destruct (lookup_lt_is_Some_2 (globals m) (Z.to_nat (u16 hi lo))) as [o Ho].
  { unfold GlobalsSize in Hg. lia. }
  assert (Hidx : index (globals m) (u16 hi lo) = Some o).
  { apply index_Some. split; [lia | exact Ho]. }
  exists o. split; [exact Hidx |].
  rewrite (Run_body_fetch _ _ _ _ Hfetch).
  by rewrite (GetGlobal_step m ip opcode hi lo o).
Qed.

(** X12.  [OpJump] continues at its target with the machine untouched; a
    jump to itself never lets [Run] return, whatever the fuel. *)
Theorem unconditional_jump (m : VM) (ip : Z) (opcode : Opcode) (hi lo : Byte.byte) :
  index (instructions m) ip = Some opcode -> decode opcode = Some OpJump ->
  operand_at m ip hi lo ->
  (forall fuel,
     Run_loop decode (S fuel) ip m = Run_loop decode fuel (u16 hi lo) m) /\
  (u16 hi lo = ip -> forall fuel, Run_loop decode fuel ip m = None).
Proof.
  intros Hfetch Hop Hoperand.
  assert (Hstep : forall fuel,
    Run_loop decode (S fuel) ip m = Run_loop decode fuel (u16 hi lo) m).
  { intros fuel. rewrite (Run_loop_Ret fuel ip (u16 hi lo - 1) m m opcode Hfetch).
    - f_equal. lia.
    - unfold Run_switch. rewrite Hop. unfold bind.
      by rewrite (readOperand_ok _ _ _ _ Hoperand). }
  split; [exact Hstep |].
  intros Hself fuel. induction fuel as [| fuel IH].
  - simpl. apply index_lt in Hfetch. destruct (decide _); [reflexivity | lia].
  - rewrite Hstep, Hself. exact IH.
Qed.


(** X14.  [OpConstant] pushes the constant its operand names and goes on
    after the operand; an operand beyond the constant pool makes [Run]
    panic. *)
Theorem push_constant (m : VM) (ip : Z) (opcode : Opcode) (hi lo : Byte.byte) :
  index (instructions m) ip = Some opcode -> decode opcode = Some OpConstant ->
  operand_at m ip hi lo ->
  0 <= sp m < StackSize -> sp m < Z.of_nat (length (stack m)) ->
  match index (constants m) (u16 hi lo) with
  | Some c =>
      forall fuel,
        Run_loop decode (S fuel) ip m =
        Run_loop decode fuel (ip + 3)
          (mkVM (heap m) (constants m) (instructions m) (globals m)
             (<[Z.to_nat (sp m) := c]> (stack m)) (sp m + 1))
  | None =>
      forall fuel, Run_loop decode (S fuel) ip m = Some (Panic out_of_range)
  end.
Proof.
  intros Hfetch Hop Hoperand Hsp Hlen.
  assert (Hswitch : Run_switch decode ip opcode m =
    (c <- orPanic out_of_range (index (constants m) (u16 hi lo)) ;;
     push c ;; ret (ip + 2)) m).
  { unfold Run_switch. rewrite Hop.
    unfold bind at 1. by rewrite (readOperand_ok _ _ _ _ Hoperand). }
  destruct (index (constants m) (u16 hi lo)) as [c |]; intros fuel.
  - rewrite (Run_loop_Ret fuel ip (ip + 2) m
               (set_sp (sp m + 1) (set_stack (<[Z.to_nat (sp m) := c]> (stack m)) m))
               opcode Hfetch).
    + f_equal. lia.
    + rewrite Hswitch. unfold bind, orPanic, ret. by rewrite push_ok.
  - apply (Run_loop_Panic fuel ip m opcode); [done |]. by rewrite Hswitch.
Qed.

End Instructions.

Section Termination.

Variable decode : Opcode -> option Op.





End Termination.


(** ** Stack overflow *)

Section Overflow.

Variable decode : Opcode -> option Op.











End Overflow.

Section OverflowRun.

Variable decode : Opcode -> option Op.







End OverflowRun.


(** ** More on the driver *)

Section Repl.

Variable decode : Opcode -> option Op.

Lemma New_stack (h : list Struct) (byteCode : ByteCode) (g : list Object) :
  stack (NewWithGlobals h byteCode g) = replicate (Z.to_nat StackSize) nil.
Proof. reflexivity. Qed.



(** X17.  A turn whose byte code is empty ends in a panic: nothing was ever
    popped, [LastPopped] is the [nil] of a fresh stack, and [Inspect] is
    called on it. *)
Theorem empty_code_crashes_the_turn (fuel : nat) (compileErr : option string)
    (byteCode : ByteCode) (s : repl.Session) :
  Instructions_ byteCode = [] ->
  repl.turn decode fuel [] compileErr byteCode s = Some (repl.Crash nil_deref).
Proof.
  intros Hempty. unfold repl.turn. simpl.
  assert (Hrun : forall m, instructions m = [] -> Run decode fuel m = Some (Ret tt m)).
  { intros m Hm. unfold Run. destruct fuel; simpl; rewrite Hm; reflexivity. }
  rewrite Hrun by exact Hempty.
  unfold repl.printResult, LastPopped, index.
  destruct (decide (0 <= sp _)); [| done].
  rewrite New_stack.
  assert (Hslot : replicate (Z.to_nat StackSize) nil !! Z.to_nat 0 = Some nil).
  { apply lookup_replicate_2. unfold StackSize. lia. }
  simpl sp. rewrite Hslot. reflexivity.
Qed.

Lemma printParserErrors_report (out errors : list string) :
  repl.printParserErrors out errors = out ++ parser_report errors.
Proof.
  unfold repl.printParserErrors, parser_report, repl.WriteString.
  assert (Hfold : forall acc : list string,
    foldl (fun out msg => out ++ [repl.tab +:+ msg +:+ repl.newline]) acc errors
    = acc ++ ((fun msg => repl.tab +:+ msg +:+ repl.newline) <$> errors)).
  { induction errors as [| e errors IH]; intros acc; simpl.
    - by rewrite app_nil_r.
    - rewrite IH. by rewrite <- app_assoc. }
  rewrite Hfold. by rewrite <- !app_assoc.
Qed.

(** X18.  When the parser reports errors the turn writes the banner, the
    heading and one indented line for each error, in order, and nothing else
    happens: nothing is run, the globals and the heap are as they were. *)
Theorem parser_errors_turn (fuel : nat) (errors : list string)
    (compileErr : option string) (byteCode : ByteCode) (s : repl.Session) :
  errors <> [] ->
  repl.turn decode fuel errors compileErr byteCode s =
    Some (repl.Next
            (repl.mkSession (repl.out s ++ parser_report errors)
               (repl.globals s) (repl.heap s))) /\
  length (parser_report errors) = (2 + length errors)%nat.
Proof.
  intros Hne. split.
  - unfold repl.turn. destruct (decide _) as [_ | Hlen].
    + by rewrite printParserErrors_report.
    + destruct errors; [done | exfalso; apply Hlen; discriminate].
  - unfold parser_report. simpl. by rewrite length_fmap.
Qed.

Lemma printResult_out (out : list string) (machine : VM) (s' : repl.Session) :
  repl.printResult out machine = repl.Next s' ->
  out `prefix_of` repl.out s' /\ repl.globals s' = globals machine.
Proof.
  unfold repl.printResult.
  destruct (LastPopped machine) as [result |]; [| discriminate].
  destruct (deref (heap machine) result) as [obj |]; [| discriminate].
  intros [= <-]. simpl. split; [| reflexivity].
  unfold repl.WriteString. rewrite <- app_assoc. by apply prefix_app_r.
Qed.

Lemma turn_out (fuel : nat) (errors : list string) (compileErr : option string)
    (byteCode : ByteCode) (s s' : repl.Session) :
  repl.turn decode fuel errors compileErr byteCode s = Some (repl.Next s') ->
  repl.out s `prefix_of` repl.out s' /\
  length (repl.globals s') = length (repl.globals s).
Proof.
  unfold repl.turn. destruct (decide _).
  - intros [= <-]. simpl. split; [| reflexivity].
    rewrite printParserErrors_report. by apply prefix_app_r.
  - set (out1 := match compileErr with
                 | Some err => repl.WriteString (repl.out s) ("error during compilation: " +:+ err)
                 | None => repl.out s
                 end).
    assert (Hout1 : repl.out s `prefix_of` out1).
    { subst out1. destruct compileErr; [by apply prefix_app_r | done]. }
    simpl.
    destruct (Run decode fuel _) as [[[] machine | err machine | msg] |] eqn:E;
      try discriminate; intros [= H]; apply printResult_out in H as [Hpre Hg].
    + split; [by etrans |]. rewrite Hg.
      assert (He : ended (Run_loop decode fuel 0
                            (NewWithGlobals (repl.heap s) byteCode (repl.globals s)))
                         machine).
      { eexists. split; [exact E | left; by eexists]. }
      by destruct (Run_loop_preserved decode _ _ _ _ He) as (_ & _ & _ & Hgl & _).
    + split.
      * etrans; [exact Hout1 |]. etrans; [| exact Hpre]. by apply prefix_app_r.
      * rewrite Hg.
        assert (He : ended (Run_loop decode fuel 0
                              (NewWithGlobals (repl.heap s) byteCode (repl.globals s)))
                           machine).
        { eexists. split; [exact E | right; by eexists]. }
        by destruct (Run_loop_preserved decode _ _ _ _ He) as (_ & _ & _ & Hgl & _).
Qed.

Context {Program SymbolTable : Type}.
Variable ParseProgram : string -> Program * list string.
Variable Compile :
  SymbolTable -> list Struct -> Program ->
  option string * ByteCode * SymbolTable * list Struct.

(** X19.  Whatever the front end does, [Start] only ever appends to its
    output, and the globals array it hands from line to line keeps its
    length: the session after any number of lines extends the output of the
    session before them. *)
Theorem Start_only_appends (fuel : nat) (lines : list string)
    (symbolTable : SymbolTable) (s s' : repl.Session) :
  repl.Start_loop decode ParseProgram Compile fuel lines symbolTable s
    = Some (repl.Next s') ->
  repl.out s `prefix_of` repl.out s' /\
  length (repl.globals s') = length (repl.globals s).
Proof.
  revert symbolTable s. induction lines as [| line lines IH]; intros symbolTable s; simpl.
  - by intros [= <-].
  - destruct (ParseProgram line) as [program errors].
    destruct (decide _).
    + destruct (repl.turn decode fuel errors None _ s) as [[s1 | msg] |] eqn:E;
        try discriminate.
      intros [Hpre Hg]%IH. apply turn_out in E as [Hpre1 Hg1].
      split; [by etrans | congruence].
    + destruct (Compile symbolTable (repl.heap s) program)
        as [[[compileErr byteCode] symbolTable'] h].
      destruct (repl.turn decode fuel errors compileErr byteCode _)
        as [[s1 | msg] |] eqn:E; try discriminate.
      intros [Hpre Hg]%IH. apply turn_out in E as [Hpre1 Hg1]. simpl in *.
      split; [by etrans | congruence].
Qed.

End Repl.


(** ** The further properties at concrete machines *)

(** A push of [True] on the empty stack of a new machine. *)
Lemma push_then_pop_witness :
  (push vm.True ;; pop) sum_machine =
    Ret vm.True
      (mkVM (heap sum_machine) (constants sum_machine) (instructions sum_machine)
         (globals sum_machine)
         (<[Z.to_nat (sp sum_machine) := vm.True]> (stack sum_machine))
         (sp sum_machine)).
Proof.
  destruct (push_then_pop vm.True sum_machine) as [H _]; [evaluated | evaluated |].
  exact H.
Defined.

(** [-5] is a new [Integer]; [-true] is refused. *)
Lemma minus_operator_witness :
  executeMinusOperator
    (loaded [Some 3%nat] (machineG [5] [Make0 OpMinus] four_globals))
    = Ret tt
        (mkVM (initial_heap ++ [Integer 5; Integer (-5)]) [Some 3%nat]
           [byte_of OpMinus] four_globals
           (<[0%nat := Some 4%nat]>
              (stack (loaded [Some 3%nat] (machineG [5] [Make0 OpMinus] four_globals))))
           1) /\
  executeMinusOperator
    (loaded [vm.True] (machineG [] [Make0 OpMinus] four_globals))
    = Fail "unsupported type for negation by minus: BOOLEAN"
        (set_sp 0 (loaded [vm.True] (machineG [] [Make0 OpMinus] four_globals))).
Proof.
  split.
  - pose proof (minus_operator
                  (loaded [Some 3%nat] (machineG [5] [Make0 OpMinus] four_globals))
                  (Some 3%nat) (Integer 5)) as H.
    cbv iota beta in H.
    destruct H as [H _]; [evaluated | evaluated | evaluated | evaluated |].
    exact H.
  - pose proof (minus_operator
                  (loaded [vm.True] (machineG [] [Make0 OpMinus] four_globals))
                  vm.True (Boolean true)) as H.
    cbv iota beta in H.
    apply H; evaluated.
Defined.

(** [1 > 2] pushes a new Boolean that holds false. *)
Lemma integer_comparison_witness :
  executeComparison op_of (byte_of OpGreaterThan)
    (loaded [Some 3%nat; Some 4%nat]
       (machineG [1; 2] [Make0 OpGreaterThan] four_globals))
    = Ret tt
        (mkVM (initial_heap ++ [Integer 1; Integer 2; Boolean false])
           [Some 3%nat; Some 4%nat] [byte_of OpGreaterThan] four_globals
           (<[0%nat := Some 5%nat]>
              (stack (loaded [Some 3%nat; Some 4%nat]
                        (machineG [1; 2] [Make0 OpGreaterThan] four_globals))))
           1).
Proof.
  apply (integer_comparison op_of
           (loaded [Some 3%nat; Some 4%nat]
              (machineG [1; 2] [Make0 OpGreaterThan] four_globals))
           (byte_of OpGreaterThan) OpGreaterThan (Some 3%nat) (Some 4%nat) 1 2);
    first [evaluated | right; right; reflexivity].
Defined.

(** [true == true] on the singleton holds; [true > true] is refused. *)
Lemma identity_comparison_witness :
  executeComparison op_of (byte_of OpEqual)
    (loaded [vm.True; vm.True] (machineG [] [Make0 OpEqual] four_globals))
    = Ret tt
        (mkVM (initial_heap ++ [Boolean true]) [] [byte_of OpEqual] four_globals
           (<[0%nat := Some 3%nat]>
              (stack (loaded [vm.True; vm.True]
                        (machineG [] [Make0 OpEqual] four_globals))))
           1) /\
  executeComparison op_of (byte_of OpGreaterThan)
    (loaded [vm.True; vm.True] (machineG [] [Make0 OpGreaterThan] four_globals))
    = Fail "unsupported types for binary operation: BOOLEAN and BOOLEAN"
        (set_sp 0 (loaded [vm.True; vm.True]
                     (machineG [] [Make0 OpGreaterThan] four_globals))).
Proof.
  split.
  - apply (identity_comparison op_of
             (loaded [vm.True; vm.True] (machineG [] [Make0 OpEqual] four_globals))
             (byte_of OpEqual) OpEqual vm.True vm.True (Boolean true) (Boolean true));
      first [evaluated | left; reflexivity
            | intros (a & b & H & _); discriminate H].
  - apply (identity_comparison op_of
             (loaded [vm.True; vm.True] (machineG [] [Make0 OpGreaterThan] four_globals))
             (byte_of OpGreaterThan) OpGreaterThan vm.True vm.True
             (Boolean true) (Boolean true));
      first [evaluated | right; right; reflexivity
            | intros (a & b & H & _); discriminate H].
Defined.

(** [OpAdd] on the empty stack of a new machine. *)
Lemma operators_panic_on_underflow_witness :
  executeBinaryOperation op_of (byte_of OpAdd) sum_machine = Panic nil_deref.
Proof.
  destruct (operators_panic_on_underflow op_of sum_machine (byte_of OpAdd))
    as [H _]; [left; reflexivity | exact H].
Defined.

(** [OpBang] on the empty stack of a new machine. *)
Lemma bang_on_empty_stack_witness :
  executeBangOperator sum_machine =
    Ret tt
      (mkVM (heap sum_machine) (constants sum_machine) (instructions sum_machine)
         (globals sum_machine) (<[0%nat := vm.False]> (stack sum_machine)) 1).
Proof.
  apply (bang_on_empty_stack sum_machine); evaluated.
Defined.

(** [1 / 0]. *)
Lemma division_by_zero_panics_witness :
  executeBinaryOperation op_of (byte_of OpDiv)
    (loaded [Some 3%nat; Some 4%nat] (machineG [1; 0] [Make0 OpDiv] four_globals))
    = Panic div_by_zero.
Proof.
  destruct (division_by_zero_panics op_of
              (loaded [Some 3%nat; Some 4%nat]
                 (machineG [1; 0] [Make0 OpDiv] four_globals))
              (byte_of OpDiv) (Some 3%nat) (Some 4%nat) 1) as [H _];
    [reflexivity | evaluated | evaluated | evaluated | evaluated | evaluated |].
  exact H.
Defined.

(** [OpSetGlobal 2; OpGetGlobal 2] with [True] on the stack. *)
Lemma set_then_get_global_witness :
  Run_loop op_of 2 0
    (loaded [vm.True]
       (machineG [] [Make1 OpSetGlobal 2; Make1 OpGetGlobal 2] four_globals))
  = Run_loop op_of 0 (0 + 6)
      (mkVM initial_heap [] (concat [Make1 OpSetGlobal 2; Make1 OpGetGlobal 2])
         (<[Z.to_nat (u16 Byte.x00 Byte.x02) := vm.True]> four_globals)
         (stack (loaded [vm.True]
                   (machineG [] [Make1 OpSetGlobal 2; Make1 OpGetGlobal 2] four_globals)))
         1).
Proof.
  apply (set_then_get_global op_of
           (loaded [vm.True]
              (machineG [] [Make1 OpSetGlobal 2; Make1 OpGetGlobal 2] four_globals))
           0 (byte_of OpSetGlobal) (byte_of OpGetGlobal) Byte.x00 Byte.x02 vm.True);
    evaluated.
Defined.

(** [OpGetGlobal 7] on the machine [New] builds: slot 7 was never set. *)
Lemma get_global_in_range_witness :
  exists o,
    index (globals (machine [] [Make1 OpGetGlobal 7])) (u16 Byte.x00 Byte.x07) = Some o /\
    Run_body op_of 0 (machine [] [Make1 OpGetGlobal 7]) =
      Ret (0 + 2)
          (mkVM (heap (machine [] [Make1 OpGetGlobal 7]))
             (constants (machine [] [Make1 OpGetGlobal 7]))
             (instructions (machine [] [Make1 OpGetGlobal 7]))
             (globals (machine [] [Make1 OpGetGlobal 7]))
             (<[Z.to_nat (sp (machine [] [Make1 OpGetGlobal 7])) := o]>
                (stack (machine [] [Make1 OpGetGlobal 7])))
             (sp (machine [] [Make1 OpGetGlobal 7]) + 1)).
Proof.
  apply (get_global_in_range op_of (machine [] [Make1 OpGetGlobal 7]) 0
           (byte_of OpGetGlobal) Byte.x00 Byte.x07); evaluated.
Defined.

(** [OpJump 0] at offset 0 never returns. *)
Lemma unconditional_jump_witness :
  Run_loop op_of 1000 0 (machineG [] [Make1 OpJump 0] four_globals) = None.
Proof.
  destruct (unconditional_jump op_of (machineG [] [Make1 OpJump 0] four_globals) 0
              (byte_of OpJump) Byte.x00 Byte.x00) as [_ H];
    [evaluated | evaluated | evaluated |].
  apply H. reflexivity.
Defined.


(** The first instruction of [1 + 2;]. *)
Lemma push_constant_witness :
  match index (constants sum_machine) (u16 Byte.x00 Byte.x00) with
  | Some c =>
      forall fuel,
        Run_loop op_of (S fuel) 0 sum_machine =
        Run_loop op_of fuel (0 + 3)
          (mkVM (heap sum_machine) (constants sum_machine)
             (instructions sum_machine) (globals sum_machine)
             (<[Z.to_nat (sp sum_machine) := c]> (stack sum_machine))
             (sp sum_machine + 1))
  | None =>
      forall fuel, Run_loop op_of (S fuel) 0 sum_machine = Some (Panic out_of_range)
  end.
Proof.
  apply (push_constant op_of sum_machine 0 (byte_of OpConstant) Byte.x00 Byte.x00);
    evaluated.
Defined.



(** A line that compiles to no code at all. *)
Lemma empty_code_crashes_the_turn_witness :
  repl.turn op_of 0 [] None (mkByteCode [] []) small_session
    = Some (repl.Crash nil_deref).
Proof.
  apply (empty_code_crashes_the_turn op_of 0 None (mkByteCode [] []) small_session).
  reflexivity.
Defined.

(** One error of the parser. *)
Lemma parser_errors_turn_witness :
  repl.turn op_of 0 ["no prefix parse function for ) found"] None
    (mkByteCode [] []) small_session
  = Some (repl.Next
            (repl.mkSession
               (repl.out small_session
                  ++ parser_report ["no prefix parse function for ) found"])
               (repl.globals small_session) (repl.heap small_session))).
Proof.
  destruct (parser_errors_turn op_of 0 ["no prefix parse function for ) found"]
              None (mkByteCode [] []) small_session) as [H _];
    [discriminate | exact H].
Defined.

(** Two lines read as [true;]. *)
Lemma Start_only_appends_witness :
  exists s',
    repl.Start_loop op_of parse_true compile_true 2 ["a"; "b"] tt small_session
      = Some (repl.Next s') /\
    ["earlier"] `prefix_of` repl.out s'.
Proof.
  assert (E : exists s',
    repl.Start_loop op_of parse_true compile_true 2 ["a"; "b"] tt small_session
      = Some (repl.Next s')).
  { eexists. vm_compute. reflexivity. }
  destruct E as [s' E]. exists s'. split; [exact E |].
  destruct (Start_only_appends op_of parse_true compile_true 2 ["a"; "b"] tt
              small_session s' E) as [H _].
  exact H.
Defined.
